(** * Narrow type emulation for memref operations

    A shallow embedding of
    [mlir/lib/Dialect/MemRef/Transforms/EmulateNarrowType.cpp]:
    the bit-offset and write-mask helpers, the arithmetic emitted by the
    rewritten [memref.load] and [memref.store], the [memref.subview]
    pattern with its rewriter state, and the memref type conversion.

    Conventions.
    - A value of type [iN] is its unsigned representative in [[0, 2^N)];
      [signed] gives the two's-complement reading.
    - C++ [/] and [%] on integers are [Z.quot] and [Z.rem]; the affine
      [mod] and [floordiv] are [Z.modulo] and [Z.div].
    - C++ [int] and [int64_t] sums, differences and products are written
      with their two's-complement wrap-around ([wrapInt], [wrapInt64]); a
      quotient of two positive machine integers cannot leave its range and
      is written plainly.  A shift of an [int] by 32 or more has no defined
      result: a computation that evaluates one is [None]. *)

From Stdlib Require Import ZArith List Lia Bool String.
Import ListNotations.
Local Open Scope Z_scope.

(** ** Machine integers of the C++ side *)

Definition wrapSigned (w v : Z) : Z := (v + 2 ^ (w - 1)) mod 2 ^ w - 2 ^ (w - 1).
Definition wrapInt (v : Z) : Z := wrapSigned 32 v.
Definition wrapInt64 (v : Z) : Z := wrapSigned 64 v.

(** [ShapedType::kDynamic] is [std::numeric_limits<int64_t>::min()]. *)
Definition kDynamic : Z := - 2 ^ 63.

(** ** Integer SSA values and the arith operations the patterns emit *)

Record Value : Type := mkValue { bitwidth : Z; bits : Z }.

(** Shift amounts are below the width wherever the patterns shift (the
    operation yields poison otherwise). *)
Module Arith.

Definition wrap (w v : Z) : Z := v mod 2 ^ w.

Definition signed (w v : Z) : Z := if v <? 2 ^ (w - 1) then v else v - 2 ^ w.

(** Modelled from the spec: the builder's [getIntegerAttr] and
    [arith.constant] are declared outside this file.  The constant is the
    [int64_t] payload at the width of the type, so [-1] is the pattern of all
    ones that the bitwise inversion of the write mask needs. *)
Definition ConstantOp (w v : Z) : Value := mkValue w (wrap w v).

(** [arith.index_cast] of an index to [iN]. *)
Definition IndexCastOp (w idx : Z) : Value := mkValue w (wrap w idx).

Definition ShLIOp (a b : Value) : Value :=
  mkValue (bitwidth a) (wrap (bitwidth a) (Z.shiftl (bits a) (bits b))).

Definition ShRSIOp (a b : Value) : Value :=
  mkValue (bitwidth a)
          (wrap (bitwidth a) (Z.shiftr (signed (bitwidth a) (bits a)) (bits b))).

Definition AndIOp (a b : Value) : Value :=
  mkValue (bitwidth a) (Z.land (bits a) (bits b)).

Definition OrIOp (a b : Value) : Value :=
  mkValue (bitwidth a) (Z.lor (bits a) (bits b)).

Definition XOrIOp (a b : Value) : Value :=
  mkValue (bitwidth a) (Z.lxor (bits a) (bits b)).

Definition ExtUIOp (w : Z) (a : Value) : Value := mkValue w (bits a).

Definition TruncIOp (w : Z) (a : Value) : Value := mkValue w (wrap w (bits a)).

End Arith.

(** ** Utility functions *)

(** [getOffsetForBitwidth]: the affine expression in [s0 = srcIdx], folded or
    applied, then cast from index to [i<targetBits>].  The function asserts
    [targetBits % sourceBits == 0]; its callers have checked it. *)
Definition getOffsetForBitwidth (srcIdx sourceBits targetBits : Z)
           (rightOffset : bool) : Value :=
  let scaleFactor := Z.quot targetBits sourceBits in
  let offsetExpr :=
    if rightOffset
    then (scaleFactor - 1 - srcIdx mod scaleFactor) * sourceBits
    else (srcIdx mod scaleFactor) * sourceBits in
  Arith.IndexCastOp targetBits offsetExpr.

(** Sequencing of computations that may have no defined result. *)
Definition andThen {A B : Type} (e : option A) (k : A -> option B) : option B :=
  match e with Some x => k x | None => None end.

(** The C++ expression [(1 << srcBits) - 1]: the literal [1] is an [int], so
    the shift is a 32-bit one whatever the type of [srcBits]. *)
Definition lowBitsLiteral (srcBits : Z) : option Z :=
  if (0 <=? srcBits) && (srcBits <? 32)
  then Some (wrapInt (wrapInt (Z.shiftl 1 srcBits) - 1))
  else None.

(** [getAtomicWriteMask]; [linearizedIndices] is not used by the body. *)
Definition getAtomicWriteMask (linearizedIndices srcBits dstBits : Z)
           (bitwidthOffset : Value) : option Value :=
  andThen (lowBitsLiteral srcBits) (fun lit =>
  let maskRightAligned := Arith.ConstantOp dstBits lit in
  let writeMaskInverse := Arith.ShLIOp maskRightAligned bitwidthOffset in
  let flipVal := Arith.ConstantOp dstBits (-1) in
  Some (Arith.XOrIOp writeMaskInverse flipVal)).

(** [getIndicesForLoadOrStore]: [s0 floordiv scaler]. *)
Definition getIndicesForLoadOrStore (linearizedIndex srcBits dstBits : Z) : Z :=
  let scaler := Z.quot dstBits srcBits in
  linearizedIndex / scaler.

(** ** Types *)

Inductive SignednessSemantics : Type := Signless | Signed | Unsigned.

(** Element types with a bit width: integers and floats. *)
Inductive ElementType : Type :=
| IntegerType (width : Z) (signedness : SignednessSemantics)
| FloatType (width : Z).

Definition getIntOrFloatBitWidth (ty : ElementType) : Z :=
  match ty with
  | IntegerType w _ => w
  | FloatType w => w
  end.

Definition SignednessSemantics_eqb (a b : SignednessSemantics) : bool :=
  match a, b with
  | Signless, Signless | Signed, Signed | Unsigned, Unsigned => true
  | _, _ => false
  end.

Definition ElementType_eqb (a b : ElementType) : bool :=
  match a, b with
  | IntegerType w1 s1, IntegerType w2 s2 =>
      (w1 =? w2) && SignednessSemantics_eqb s1 s2
  | FloatType w1, FloatType w2 => w1 =? w2
  | _, _ => false
  end.

(** Dimension sizes, strides and offsets are [int64_t], [kDynamic] standing
    for a dynamic one.  A null layout attribute is the identity layout. *)
Inductive Layout : Type :=
| IdentityLayout
| StridedLayoutAttr (offset : Z) (strides : list Z)
| NonStridedLayout.

Record MemRefType : Type := mkMemRefType {
  getShape : list Z;
  getElementType : ElementType;
  getLayout : Layout;
  getMemorySpace : Z
}.

Definition getRank (ty : MemRefType) : nat := List.length (getShape ty).

(** ** Results of a pattern *)

(** A diagnostic is a literal message, or the [formatv] of a format string
    with a type. *)
Inductive Diagnostic : Type :=
| Message (text : string)
| FormatType (fmt : string) (ty : MemRefType).

Inductive LogicalResult (A : Type) : Type :=
| success (a : A)
| failure (diagnostic : Diagnostic).
Arguments success {A} a.
Arguments failure {A} diagnostic.

(** ** Memory of the converted buffer

    The converted buffer is a sequence of containers of the converted element
    width, addressed by the scaled linear index; a rank-0 buffer is the single
    container at index 0. *)

Definition Memory : Type := Z -> Z.

Definition LoadOp (dstBits : Z) (mem : Memory) (idx : Z) : Value :=
  mkValue dstBits (mem idx).

Inductive AtomicRMWKind : Type := andi | ori.

Definition AtomicRMWOp (kind : AtomicRMWKind) (v : Value) (mem : Memory)
           (idx : Z) : Memory :=
  fun j =>
    if j =? idx
    then match kind with
         | andi => Z.land (mem j) (bits v)
         | ori => Z.lor (mem j) (bits v)
         end
    else mem j.

(** ** ConvertMemRefLoad

    [resultTy] is what the element type converter (not part of this file)
    returns for the old element type; [rank] is the rank of the converted
    buffer; [linearizedIndices] is the linear index of the access at source
    granularity, as [getLinearizedSrcIndices] returns it.  The result is what
    the emitted operations compute on [mem]; it is [None] when the pattern
    itself evaluates a shift that has no defined result. *)
Definition ConvertMemRefLoad (oldElementType convertedElementType resultTy : ElementType)
           (rank : nat) (mem : Memory) (linearizedIndices : Z)
  : option (LogicalResult Value) :=
  let srcBits := getIntOrFloatBitWidth oldElementType in
  let dstBits := getIntOrFloatBitWidth convertedElementType in
  if negb (Z.rem dstBits srcBits =? 0)
  then Some (failure (Message "only dstBits % srcBits == 0 supported"))
  else
    let bitsLoad :=
      match rank with
      | O => LoadOp dstBits mem 0
      | _ =>
          let newLoad :=
            LoadOp dstBits mem
                   (getIndicesForLoadOrStore linearizedIndices srcBits dstBits) in
          let bitwidthOffset :=
            getOffsetForBitwidth linearizedIndices srcBits dstBits false in
          Arith.ShRSIOp newLoad bitwidthOffset
      end in
    if ElementType_eqb resultTy convertedElementType
    then
      andThen (lowBitsLiteral srcBits) (fun lit =>
      let mask := Arith.ConstantOp dstBits lit in
      Some (success (Arith.AndIOp bitsLoad mask)))
    else Some (success (Arith.TruncIOp (getIntOrFloatBitWidth resultTy) bitsLoad)).

(** ** ConvertMemrefStore *)
Definition ConvertMemrefStore (oldElementType convertedElementType : ElementType)
           (rank : nat) (value : Value) (mem : Memory) (linearizedIndices : Z)
  : option (LogicalResult Memory) :=
  let srcBits := getIntOrFloatBitWidth oldElementType in
  let dstBits := getIntOrFloatBitWidth convertedElementType in
  if negb (Z.rem dstBits srcBits =? 0)
  then Some (failure (Message "only dstBits % srcBits == 0 supported"))
  else
    let extendedInput := Arith.ExtUIOp dstBits value in
    match rank with
    | O =>
        let shiftVal := Arith.ConstantOp dstBits (wrapInt (dstBits - srcBits)) in
        let alignedVal := Arith.ShLIOp extendedInput shiftVal in
        andThen (lowBitsLiteral (wrapInt (dstBits - srcBits))) (fun lit =>
        let writeMask := Arith.ConstantOp dstBits lit in
        let mem1 := AtomicRMWOp andi writeMask mem 0 in
        Some (success (AtomicRMWOp ori alignedVal mem1 0)))
    | _ =>
        let storeIndices :=
          getIndicesForLoadOrStore linearizedIndices srcBits dstBits in
        let bitwidthOffset :=
          getOffsetForBitwidth linearizedIndices srcBits dstBits true in
        andThen
          (getAtomicWriteMask linearizedIndices srcBits dstBits bitwidthOffset)
          (fun writeMask =>
        let alignedVal := Arith.ShLIOp extendedInput bitwidthOffset in
        let mem1 := AtomicRMWOp andi writeMask mem storeIndices in
        Some (success (AtomicRMWOp ori alignedVal mem1 storeIndices)))
    end.


(** ** ConvertMemRefSubview *)

Record SubViewOp : Type := mkSubViewOp {
  getType : MemRefType;
  getStaticOffsets : list Z;
  getStaticSizes : list Z;
  getStaticStrides : list Z
}.

(** The static lists of a subview are as long as the rank of its source,
    so entry 0 exists wherever the pattern reads it. *)
Definition getStaticOffset (op : SubViewOp) (i : nat) : Z := nth i (getStaticOffsets op) 0.
Definition getStaticSize (op : SubViewOp) (i : nat) : Z := nth i (getStaticSizes op) 0.
Definition getStaticStride (op : SubViewOp) (i : nat) : Z := nth i (getStaticStrides op) 0.

(** What the rewriter has done so far: the operations created, in order, and
    the original operations replaced or erased. *)
Record RewriterState : Type := mkRewriterState {
  createdOps : list SubViewOp;
  replacedOps : list SubViewOp
}.

Definition notifyMatchFailure (st : RewriterState) (d : Diagnostic)
  : LogicalResult unit * RewriterState := (failure d, st).

Definition replaceOpWithNewOp (st : RewriterState) (op newOp : SubViewOp)
  : RewriterState :=
  mkRewriterState (createdOps st ++ [newOp]) (replacedOps st ++ [op]).

(** [mlir::ceilDiv] of mlir/Support/MathExtras.h. *)
Definition ceilDiv (lhs rhs : Z) : Z :=
  let x := if 0 <? rhs then -1 else 1 in
  if negb (lhs =? 0) && Bool.eqb (0 <? lhs) (0 <? rhs)
  then Z.quot (lhs + x) rhs + 1
  else - Z.quot (- lhs) rhs.

Section SubviewPattern.

(** The type converter the pattern was created with. *)
Variable convertType : MemRefType -> option MemRefType.

Definition ConvertMemRefSubview (op : SubViewOp) (st : RewriterState)
  : LogicalResult unit * RewriterState :=
  match convertType (getType op) with
  | None =>
      notifyMatchFailure st
        (FormatType "failed to convert memref type: {0}" (getType op))
  | Some newTy =>
      let srcBits := getIntOrFloatBitWidth (getElementType (getType op)) in
      let dstBits := getIntOrFloatBitWidth (getElementType newTy) in
      if negb (Z.rem dstBits srcBits =? 0)
      then notifyMatchFailure st
             (Message "only dstBits % srcBits == 0 supported")
      else if negb (Nat.eqb (getRank (getType op)) 1)
      then notifyMatchFailure st
             (Message "subview with rank > 1 is not supported")
      else if negb (getStaticStride op 0 =? 1)
      then notifyMatchFailure st
             (Message "subview with stride != 1 is not supported")
      else
        let size := getStaticSize op 0 in
        let offset := getStaticOffset op 0 in
        if (size =? kDynamic) || (offset =? kDynamic)
        then notifyMatchFailure st
               (Message "subview with dynamic size or offset is not supported")
        else
          let elementsPerByte := Z.quot dstBits srcBits in
          if negb (Z.rem offset elementsPerByte =? 0)
          then notifyMatchFailure st
                 (Message "subview with offset not multiple of elementsPerByte is not supported")
          else
            let size' := ceilDiv size elementsPerByte in
            let offset' := Z.quot offset elementsPerByte in
            (success tt,
             replaceOpWithNewOp st op
               (mkSubViewOp newTy [offset'] [size'] (getStaticStrides op)))
  end.

End SubviewPattern.

(** ** The memref type conversion *)

Definition isDynamic (d : Z) : bool := d =? kDynamic.

(** Modelled from the spec: the strides of the identity layout, which
    [getStridesAndOffset] (declared outside this file) computes.  The stride
    of a dimension is the number of elements of the dimensions inside it,
    dynamic once a dynamic size enters the product. *)
Definition runningSize (sizes : list Z) : Z :=
  if existsb isDynamic sizes then kDynamic else fold_right Z.mul 1 sizes.

(** Modelled from the spec: row-major strides, one per dimension, the
    innermost being 1. *)
Fixpoint canonicalStrides (shape : list Z) : list Z :=
  match shape with
  | [] => []
  | _ :: rest => runningSize rest :: canonicalStrides rest
  end.

(** Modelled from the spec: [getStridesAndOffset] is declared outside this
    file.  A buffer type carries a base offset and one stride per dimension;
    the identity layout has offset 0 and row-major strides; a layout that is
    not strided has neither, and the call fails. *)
Definition getStridesAndOffset (ty : MemRefType) : option (list Z * Z) :=
  match getLayout ty with
  | IdentityLayout => Some (canonicalStrides (getShape ty), 0)
  | StridedLayoutAttr offset strides => Some (strides, offset)
  | NonStridedLayout => None
  end.

(** The loop of [getLinearizedShape]: [None] when it returns early on a
    dynamic size, else the running [int64_t] product. *)
Fixpoint linearizedShapeLoop (shape : list Z) (linearizedShape : Z) : option Z :=
  match shape with
  | [] => Some linearizedShape
  | d :: rest =>
      if d =? kDynamic then None
      else linearizedShapeLoop rest (wrapInt64 (linearizedShape * d))
  end.

Definition getLinearizedShape (ty : MemRefType) (srcBits dstBits : Z) : list Z :=
  match getRank ty with
  | O => []
  | _ =>
      match linearizedShapeLoop (getShape ty) 1 with
      | None => [kDynamic]
      | Some linearizedShape =>
          let scale := Z.quot dstBits srcBits in
          [Z.quot (wrapInt64 (wrapInt64 (linearizedShape + scale) - 1)) scale]
      end
  end.

(** Modelled from the spec: [MemRefType::get] is declared outside this file.
    It builds a buffer type only when the invariants of the type hold: a
    static size is not negative, and a strided layout has one stride per
    dimension (rank = number of sizes = number of strides). *)
Definition verifyMemRefType (ty : MemRefType) : bool :=
  forallb (fun d => isDynamic d || (0 <=? d)) (getShape ty)
  && match getLayout ty with
     | StridedLayoutAttr _ strides => Nat.eqb (List.length strides) (getRank ty)
     | _ => true
     end.

(** What the conversion callback does with a type: it returns a type, it
    returns [std::nullopt], or it hands [MemRefType::get] a type that this
    refuses to build. *)
Inductive Conversion : Type :=
| Converted (ty : MemRefType)
| NoConversion
| Refused.

Definition MemRefType_get (shape : list Z) (elementType : ElementType)
           (layout : Layout) (memorySpace : Z) : Conversion :=
  let ty := mkMemRefType shape elementType layout memorySpace in
  if verifyMemRefType ty then Converted ty else Refused.

(** The callback that [populateMemRefNarrowTypeEmulationConversions] adds;
    [loadStoreWidth] is [typeConverter.getLoadStoreBitwidth()]. *)
Definition memRefTypeConversion (loadStoreWidth : Z) (ty : MemRefType) : Conversion :=
  match getElementType ty with
  | FloatType _ => Converted ty
  | IntegerType width signedness =>
      if loadStoreWidth <=? width then Converted ty
      else
        match getStridesAndOffset ty with
        | None => NoConversion
        | Some (strides, offset) =>
            if negb (Nat.eqb (List.length strides) 0) && negb (last strides 0 =? 1)
            then NoConversion
            else
              let newElemTy := IntegerType loadStoreWidth signedness in
              let mk layoutAttr :=
                MemRefType_get (getLinearizedShape ty width loadStoreWidth)
                               newElemTy layoutAttr (getMemorySpace ty) in
              if negb (offset =? 0)
              then
                if offset =? kDynamic
                then mk (StridedLayoutAttr offset [1])
                else
                  if negb (Z.rem (wrapInt64 (offset * width)) loadStoreWidth =? 0)
                  then NoConversion
                  else
                    let offset' := Z.quot (wrapInt64 (offset * width)) loadStoreWidth in
                    mk (StridedLayoutAttr offset' [1])
              else mk IdentityLayout
        end
  end.

(** The type the callback returns, if it returns one. *)
Definition populateMemRefNarrowTypeEmulationConversions (loadStoreWidth : Z)
           (ty : MemRefType) : option MemRefType :=
  match memRefTypeConversion loadStoreWidth ty with
  | Converted ty' => Some ty'
  | NoConversion => None
  | Refused => None
  end.

(** Modelled from the spec: the converter's [convertType] is declared
    outside this file.  The converter tries its conversions in turn: a type
    for which the memref callback returns [std::nullopt] falls to the
    converter's own conversion, which returns a type as it is.  Where
    [MemRefType::get] refuses, the run stops and there is no type. *)
Definition convertType (loadStoreWidth : Z) (ty : MemRefType) : option MemRefType :=
  match memRefTypeConversion loadStoreWidth ty with
  | Converted ty' => Some ty'
  | NoConversion => Some ty
  | Refused => None
  end.

(** ** ConvertMemRefReinterpretCast *)

Module ReinterpretCastOp.

Record Op : Type := mk {
  getType : MemRefType;
  getSource : Z;
  getStaticOffsets : list Z;
  getStaticSizes : list Z;
  getStaticStrides : list Z
}.

(** A reinterpret cast has exactly one offset. *)
Definition getStaticOffset (op : Op) (i : nat) : Z := nth i (getStaticOffsets op) 0.

End ReinterpretCastOp.

(** The pattern, with the type converter it was created with and the
    converted source operand of the adaptor.  [success newOp] stands for
    [replaceOpWithNewOp(op, newOp)], [failure d] for [notifyMatchFailure]. *)
Definition ConvertMemRefReinterpretCast
           (convertType : MemRefType -> option MemRefType)
           (op : ReinterpretCastOp.Op) (adaptorSource : Z)
  : LogicalResult ReinterpretCastOp.Op :=
  match convertType (ReinterpretCastOp.getType op) with
  | None =>
      failure (FormatType "failed to convert memref type: {0}"
                          (ReinterpretCastOp.getType op))
  | Some newTy =>
      let srcBits :=
        getIntOrFloatBitWidth (getElementType (ReinterpretCastOp.getType op)) in
      let dstBits := getIntOrFloatBitWidth (getElementType newTy) in
      if negb (Z.rem dstBits srcBits =? 0)
      then failure (Message "only dstBits % srcBits == 0 supported")
      else if negb (Nat.eqb (getRank (ReinterpretCastOp.getType op)) 0)
      then failure (Message "subview with rank > 0 is not supported")
      else
        let offset := ReinterpretCastOp.getStaticOffset op 0 in
        if offset =? kDynamic
        then failure (Message "subview with dynamic offset is not supported")
        else
          let elementsPerByte := Z.quot dstBits srcBits in
          if negb (Z.rem offset elementsPerByte =? 0)
          then failure
                 (Message "subview with offset not multiple of elementsPerByte is not supported")
          else
            let offset' := Z.quot offset elementsPerByte in
            success (ReinterpretCastOp.mk newTy adaptorSource [offset'] []
                       (ReinterpretCastOp.getStaticStrides op))
  end.

(** ** Vocabulary of the properties *)

(** The [s] bits of container [c] from bit [o] on. *)
Definition elementBits (c o s : Z) : Z := (c / 2 ^ o) mod 2 ^ s.

(** The clear mask for an element of [s] bits at bit offset [o]. *)
Definition clearMask (s t o : Z) : Z := 2 ^ t - 1 - (2 ^ s - 1) * 2 ^ o.

(** The number of elements of a static shape. *)
Definition numElements (shape : list Z) : Z := fold_right Z.mul 1 shape.

(** The diagnostic of the stride check of [ConvertMemRefSubview]. *)
Definition strideDiagnostic : Diagnostic :=
  Message "subview with stride != 1 is not supported".

(** Whether an element type is an integer narrower than the load/store
    width, the case the conversion rewrites. *)
Definition isNarrow (loadStoreWidth : Z) (ty : ElementType) : bool :=
  match ty with
  | IntegerType w _ => w <? loadStoreWidth
  | FloatType _ => false
  end.

(** * Properties *)

(** ** Arithmetic of scales and offsets *)

Lemma lt_pow2 (t : Z) : 0 <= t -> t < 2 ^ t.
Proof. intros Ht. apply Z.pow_gt_lin_r; lia. Qed.

Lemma scale_facts (s t : Z) :
  0 < s -> 0 < t -> t mod s = 0 ->
  Z.quot t s = t / s /\ 0 < t / s /\ t / s * s = t.
Proof.
  intros Hs Ht Hm.
  assert (E : t = s * (t / s)) by (apply Z.div_exact; lia).
  split; [apply Z.quot_div_nonneg; lia|].
  split; nia.
Qed.

Lemma wrap_small (w v : Z) : 0 <= v < 2 ^ w -> Arith.wrap w v = v.
Proof. intros H. unfold Arith.wrap. apply Z.mod_small; assumption. Qed.

Lemma leftOffset_bounds (i s k : Z) :
  0 < s -> 0 < k -> 0 <= i mod k * s <= k * s - s.
Proof.
  intros Hs Hk. pose proof (Z.mod_pos_bound i k Hk). nia.
Qed.

Lemma rightOffset_bounds (i s k : Z) :
  0 < s -> 0 < k -> 0 <= (k - 1 - i mod k) * s <= k * s - s.
Proof.
  intros Hs Hk. pose proof (Z.mod_pos_bound i k Hk). nia.
Qed.

Lemma getOffsetForBitwidth_left (i s t : Z) :
  0 < s -> 0 < t -> t mod s = 0 ->
  getOffsetForBitwidth i s t false = mkValue t (i mod (t / s) * s).
Proof.
  intros Hs Ht Hm.
  destruct (scale_facts s t Hs Ht Hm) as (Hq & Hk & Hks).
  unfold getOffsetForBitwidth, Arith.IndexCastOp. rewrite Hq.
  f_equal. apply wrap_small.
  pose proof (leftOffset_bounds i s (t / s) Hs Hk).
  pose proof (lt_pow2 t). lia.
Qed.

Lemma getOffsetForBitwidth_right (i s t : Z) :
  0 < s -> 0 < t -> t mod s = 0 ->
  getOffsetForBitwidth i s t true = mkValue t ((t / s - 1 - i mod (t / s)) * s).
Proof.
  intros Hs Ht Hm.
  destruct (scale_facts s t Hs Ht Hm) as (Hq & Hk & Hks).
  unfold getOffsetForBitwidth, Arith.IndexCastOp. rewrite Hq.
  f_equal. apply wrap_small.
  pose proof (rightOffset_bounds i s (t / s) Hs Hk).
  pose proof (lt_pow2 t). lia.
Qed.

(** C2.  For a non-negative index [i] and widths [s], [t] with [t] a positive
    multiple of [s] and [scale = t / s], [getOffsetForBitwidth] yields
    [(i mod scale) * s] when [rightOffset] is false and
    [(scale - 1 - i mod scale) * s] when it is true, as a value of integer
    type of width [t]. *)
Theorem getOffsetForBitwidth_spec (i s t : Z) (rightOffset : bool) :
  0 <= i -> 0 < s -> 0 < t -> t mod s = 0 ->
  let scale := t / s in
  bitwidth (getOffsetForBitwidth i s t rightOffset) = t /\
  bits (getOffsetForBitwidth i s t rightOffset) =
    (if rightOffset then (scale - 1 - i mod scale) * s else i mod scale * s).
Proof.
  intros _ Hs Ht Hm scale. unfold scale.
  destruct rightOffset.
  - rewrite getOffsetForBitwidth_right by assumption. split; reflexivity.
  - rewrite getOffsetForBitwidth_left by assumption. split; reflexivity.
Qed.

Lemma getOffsetForBitwidth_spec_witness :
  bitwidth (getOffsetForBitwidth 3 4 8 true) = 8 /\
  bits (getOffsetForBitwidth 3 4 8 true) = (8 / 4 - 1 - 3 mod (8 / 4)) * 4.
Proof.
  apply (getOffsetForBitwidth_spec 3 4 8 true); [lia | lia | lia | reflexivity].
Defined.

(** ** The literal [(1 << srcBits) - 1] and the write mask *)

Lemma lowBitsLiteral_defined (s : Z) :
  0 <= s < 32 -> lowBitsLiteral s = Some (2 ^ s - 1).
Proof.
  intros [H0 H1]. unfold lowBitsLiteral.
  replace (0 <=? s) with true by (symmetry; apply Z.leb_le; lia).
  replace (s <? 32) with true by (symmetry; apply Z.ltb_lt; lia).
  cbn [andb]. f_equal. rewrite Z.shiftl_1_l.
  destruct (Z.eq_dec s 31) as [->|Hne]; [reflexivity|].
  assert (Hp : 1 <= 2 ^ s <= 2 ^ 30).
  { split; [pose proof (Z.pow_pos_nonneg 2 s); lia|].
    apply Z.pow_le_mono_r; lia. }
  change (2 ^ 30) with 1073741824 in Hp.
  unfold wrapInt, wrapSigned.
  change (2 ^ (32 - 1)) with 2147483648. change (2 ^ 32) with 4294967296.
  rewrite (Z.mod_small (2 ^ s + 2147483648)) by lia.
  rewrite Z.mod_small by lia. lia.
Qed.


Lemma lxor_ones_complement (t x : Z) :
  0 <= t -> 0 <= x < 2 ^ t -> Z.lxor x (Z.ones t) = 2 ^ t - 1 - x.
Proof.
  intros Ht Hx.
  assert (E : Z.lxor x (Z.ones t) = Z.land (Z.lxor x (-1)) (Z.ones t)).
  { rewrite <- (Z.mod_small x (2 ^ t)) at 1 by assumption.
    rewrite <- Z.land_ones by assumption.
    apply Z.bits_inj'. intros j Hj.
    rewrite !Z.lxor_spec, !Z.land_spec, Z.lxor_spec, Z.bits_m1 by assumption.
    destruct (Z.testbit x j), (Z.testbit (Z.ones t) j); reflexivity. }
  rewrite E, Z.lxor_m1_r, Z.land_ones by assumption.
  unfold Z.lnot. symmetry.
  apply Z.mod_unique with (q := -1); lia.
Qed.

Lemma getAtomicWriteMask_value (i s t o : Z) :
  0 < s < 32 -> 0 <= o -> o + s <= t ->
  getAtomicWriteMask i s t (mkValue t o) = Some (mkValue t (clearMask s t o)).
Proof.
  intros Hs Ho Hos. unfold getAtomicWriteMask.
  rewrite lowBitsLiteral_defined by lia. cbn [andThen].
  unfold Arith.XOrIOp, Arith.ShLIOp, Arith.ConstantOp, clearMask. cbn [bitwidth bits].
  do 2 f_equal.
  assert (P2s : 0 < 2 ^ s) by (apply Z.pow_pos_nonneg; lia).
  assert (P2o : 0 < 2 ^ o) by (apply Z.pow_pos_nonneg; lia).
  assert (Hso : 2 ^ s * 2 ^ o <= 2 ^ t).
  { rewrite <- Z.pow_add_r by lia. apply Z.pow_le_mono_r; lia. }
  assert (Hst : 2 ^ s <= 2 ^ t) by (apply Z.pow_le_mono_r; lia).
  rewrite (wrap_small t (2 ^ s - 1)) by lia.
  rewrite Z.shiftl_mul_pow2 by lia.
  rewrite (wrap_small t ((2 ^ s - 1) * 2 ^ o)) by nia.
  replace (Arith.wrap t (-1)) with (Z.ones t).
  2:{ unfold Arith.wrap. rewrite Z.ones_equiv.
      apply Z.mod_unique with (q := -1); lia. }
  apply lxor_ones_complement; nia.
Qed.

(** Bit [j] of the clear mask, for [j] inside the container: zero exactly on
    the [s] positions from [o] on. *)
Lemma clearMask_testbit (s t o j : Z) :
  0 < s -> 0 <= o -> o + s <= t -> 0 <= j < t ->
  Z.testbit (clearMask s t o) j = negb ((o <=? j) && (j <? o + s)).
Proof.
  intros Hs Ho Hos Hj. unfold clearMask.
  assert (P2s : 0 < 2 ^ s) by (apply Z.pow_pos_nonneg; lia).
  assert (P2o : 0 < 2 ^ o) by (apply Z.pow_pos_nonneg; lia).
  assert (Hso : 2 ^ s * 2 ^ o <= 2 ^ t).
  { rewrite <- Z.pow_add_r by lia. apply Z.pow_le_mono_r; lia. }
  rewrite <- lxor_ones_complement by nia.
  rewrite Z.lxor_spec, Z.ones_spec_low by lia.
  replace (2 ^ s - 1) with (Z.ones s) by (rewrite Z.ones_equiv; lia).
  rewrite <- Z.shiftl_mul_pow2 by lia.
  rewrite Z.shiftl_spec by lia.
  destruct (Z.leb_spec o j) as [Hoj|Hoj]; cbn [andb].
  - destruct (Z.ltb_spec j (o + s)) as [Hjs|Hjs]; cbn [negb].
    + rewrite Z.ones_spec_low by lia. reflexivity.
    + rewrite Z.ones_spec_high by lia. reflexivity.
  - rewrite Z.testbit_neg_r by lia. reflexivity.
Qed.

(** Below source width 32 the write mask of the store is the clear mask at
    the offset the store computes. *)
Lemma getAtomicWriteMask_below_32 (i s t : Z) :
  0 < s < 32 -> 0 < t -> t mod s = 0 ->
  getAtomicWriteMask i s t (getOffsetForBitwidth i s t true) =
  Some (mkValue t (clearMask s t ((t / s - 1 - i mod (t / s)) * s))).
Proof.
  intros Hs Ht Hm.
  destruct (scale_facts s t ltac:(lia) Ht Hm) as (_ & Hk & Hks).
  pose proof (rightOffset_bounds i s (t / s) ltac:(lia) Hk).
  rewrite getOffsetForBitwidth_right by lia.
  apply getAtomicWriteMask_value; lia.
Qed.

(** ** Extraction of an element by the rewritten load *)

Lemma ElementType_eqb_refl (ty : ElementType) : ElementType_eqb ty ty = true.
Proof.
  destruct ty as [w sg|w]; cbn; rewrite Z.eqb_refl; [destruct sg|]; reflexivity.
Qed.

Lemma mod_pow2_mod_pow2 (x s t : Z) :
  0 <= s <= t -> (x mod 2 ^ t) mod 2 ^ s = x mod 2 ^ s.
Proof.
  intros Hst. apply Z.mod_mod_divide.
  exists (2 ^ (t - s)). rewrite <- Z.pow_add_r by lia. f_equal. lia.
Qed.

(** The arithmetic shift brings copies of the sign bit in from the top, but
    none of them reaches the low [s] bits when [o + s <= t]. *)
Lemma shrsi_low_bits (t c o s : Z) :
  0 <= o -> 0 < s -> o + s <= t ->
  (Arith.wrap t (Z.shiftr (Arith.signed t c) o)) mod 2 ^ s = elementBits c o s.
Proof.
  intros Ho Hs Hos. unfold Arith.wrap, elementBits.
  rewrite mod_pow2_mod_pow2 by lia.
  rewrite Z.shiftr_div_pow2 by assumption.
  unfold Arith.signed. destruct (c <? 2 ^ (t - 1)); [reflexivity|].
  assert (P2o : 0 < 2 ^ o) by (apply Z.pow_pos_nonneg; lia).
  replace (c - 2 ^ t) with (c + (- 2 ^ (t - o)) * 2 ^ o).
  2:{ rewrite Z.mul_opp_l, <- Z.pow_add_r by lia.
      replace (t - o + o) with t by lia. lia. }
  rewrite Z.div_add by lia.
  replace (- 2 ^ (t - o)) with ((- 2 ^ (t - o - s)) * 2 ^ s).
  2:{ rewrite Z.mul_opp_l, <- Z.pow_add_r by lia.
      replace (t - o - s + s) with (t - o) by lia. reflexivity. }
  apply Z_mod_plus_full.
Qed.

Section LoadStore.

Variables (s t : Z) (sgOld sgNew : SignednessSemantics).
Hypothesis s_pos : 0 < s.
Hypothesis t_pos : 0 < t.
Hypothesis s_divides_t : t mod s = 0.

Let oldTy := IntegerType s sgOld.
Let newTy := IntegerType t sgNew.

Lemma s_le_t : s <= t.
Proof. destruct (scale_facts s t s_pos t_pos s_divides_t) as (_ & Hk & Hks). nia. Qed.

Lemma rem_is_zero : (Z.rem t s =? 0) = true.
Proof.
  apply Z.eqb_eq. rewrite Z.rem_mod_nonneg by lia. assumption.
Qed.

(** The rewritten load of a rank >= 1 buffer returns the [s] bits of the
    addressed container that start at bit [(i mod scale) * s]: truncated
    to [resultTy] when that is the [s]-bit type... *)
Lemma ConvertMemRefLoad_trunc (resultTy : ElementType) (n : nat) (mem : Memory) (i : Z) :
  ElementType_eqb resultTy newTy = false ->
  getIntOrFloatBitWidth resultTy = s ->
  ConvertMemRefLoad oldTy newTy resultTy (S n) mem i =
  Some (success (mkValue s
    (elementBits (mem (getIndicesForLoadOrStore i s t)) (i mod (t / s) * s) s))).
Proof.
  intros Hne Hw. unfold ConvertMemRefLoad. cbn [getIntOrFloatBitWidth oldTy newTy].
  rewrite rem_is_zero. cbn [negb]. rewrite Hne, Hw.
  rewrite getOffsetForBitwidth_left by assumption.
  unfold Arith.TruncIOp, Arith.ShRSIOp, LoadOp. cbn [bitwidth bits].
  do 3 f_equal. unfold Arith.wrap at 1.
  destruct (scale_facts s t s_pos t_pos s_divides_t) as (_ & Hk & Hks).
  pose proof (leftOffset_bounds i s (t / s) s_pos Hk).
  apply shrsi_low_bits; lia.
Qed.

(** ... and masked in the container type when [resultTy] is the container
    type (the literal mask needs [s < 32]). *)
Lemma ConvertMemRefLoad_mask (n : nat) (mem : Memory) (i : Z) :
  s < 32 ->
  ConvertMemRefLoad oldTy newTy newTy (S n) mem i =
  Some (success (mkValue t
    (elementBits (mem (getIndicesForLoadOrStore i s t)) (i mod (t / s) * s) s))).
Proof.
  intros Hs. unfold ConvertMemRefLoad. cbn [getIntOrFloatBitWidth oldTy newTy].
  rewrite rem_is_zero. cbn [negb].
  rewrite ElementType_eqb_refl.
  rewrite lowBitsLiteral_defined by lia. cbn [andThen].
  rewrite getOffsetForBitwidth_left by assumption.
  unfold Arith.AndIOp, Arith.ConstantOp, Arith.ShRSIOp, LoadOp. cbn [bitwidth bits].
  do 3 f_equal.
  pose proof s_le_t.
  assert (P2s : 0 < 2 ^ s) by (apply Z.pow_pos_nonneg; lia).
  assert (Hst : 2 ^ s <= 2 ^ t) by (apply Z.pow_le_mono_r; lia).
  rewrite (wrap_small t (2 ^ s - 1)) by lia.
  replace (2 ^ s - 1) with (Z.ones s) by (rewrite Z.ones_equiv; lia).
  rewrite Z.land_ones by lia.
  destruct (scale_facts s t s_pos t_pos s_divides_t) as (_ & Hk & Hks).
  pose proof (leftOffset_bounds i s (t / s) s_pos Hk).
  apply shrsi_low_bits; lia.
Qed.

(** The rewritten store of a rank >= 1 buffer touches one container, and
    there only through one bit offset [o]: the mask clears the [s] bits
    from [o] on and the value is shifted up by the same [o]. *)
Lemma ConvertMemrefStore_value (n : nat) (v : Value) (mem : Memory) (i : Z) :
  s < 32 -> 0 <= bits v < 2 ^ s ->
  let idx := getIndicesForLoadOrStore i s t in
  let o := (t / s - 1 - i mod (t / s)) * s in
  exists mem',
    ConvertMemrefStore oldTy newTy (S n) v mem i = Some (success mem') /\
    forall j, mem' j =
              if j =? idx
              then Z.lor (Z.land (mem j) (clearMask s t o)) (bits v * 2 ^ o)
              else mem j.
Proof.
  intros Hs Hv idx o.
  destruct (scale_facts s t s_pos t_pos s_divides_t) as (_ & Hk & Hks).
  pose proof (rightOffset_bounds i s (t / s) s_pos Hk) as Ho. fold o in Ho.
  unfold ConvertMemrefStore. cbn [getIntOrFloatBitWidth oldTy newTy].
  rewrite rem_is_zero. cbn [negb].
  rewrite getOffsetForBitwidth_right by assumption. fold o. fold idx.
  rewrite getAtomicWriteMask_value by lia. cbn [andThen].
  eexists. split; [reflexivity|].
  intros j. unfold AtomicRMWOp, Arith.ShLIOp, Arith.ExtUIOp. cbn [bitwidth bits].
  destruct (j =? idx); [|reflexivity].
  f_equal. rewrite Z.shiftl_mul_pow2 by lia.
  apply wrap_small.
  assert (P2o : 0 < 2 ^ o) by (apply Z.pow_pos_nonneg; lia).
  assert (Hso : 2 ^ s * 2 ^ o <= 2 ^ t).
  { rewrite <- Z.pow_add_r by lia. apply Z.pow_le_mono_r; lia. }
  nia.
Qed.

End LoadStore.

Lemma ElementType_eqb_eq (a b : ElementType) : ElementType_eqb a b = true -> a = b.
Proof.
  destruct a as [w1 s1|w1], b as [w2 s2|w2]; cbn; try discriminate.
  - intros H. apply andb_true_iff in H. destruct H as [Hw Hs].
    apply Z.eqb_eq in Hw. subst w2.
    destruct s1, s2; try discriminate; reflexivity.
  - intros H. apply Z.eqb_eq in H. subst. reflexivity.
Qed.

(** ** Load and store of the same element *)

(** The result of the rewritten load of a rank >= 1 buffer when it
    truncates: the container, shifted down arithmetically by the offset from
    the left, at the width of the result type. *)
Lemma ConvertMemRefLoad_trunc_general
      (s t : Z) (sgOld sgNew : SignednessSemantics) (resultTy : ElementType)
      (n : nat) (mem : Memory) (i : Z) :
  0 < s -> 0 < t -> t mod s = 0 ->
  ElementType_eqb resultTy (IntegerType t sgNew) = false ->
  ConvertMemRefLoad (IntegerType s sgOld) (IntegerType t sgNew) resultTy (S n) mem i =
  Some (success
          (mkValue (getIntOrFloatBitWidth resultTy)
             (Arith.wrap (getIntOrFloatBitWidth resultTy)
                (Arith.wrap t
                   (Z.shiftr (Arith.signed t (mem (getIndicesForLoadOrStore i s t)))
                             (i mod (t / s) * s)))))).
Proof.
  intros Hs Ht Hm Hne. unfold ConvertMemRefLoad. cbn [getIntOrFloatBitWidth].
  rewrite rem_is_zero by assumption. cbn [negb]. rewrite Hne.
  rewrite getOffsetForBitwidth_left by assumption. reflexivity.
Qed.





(** The rewritten store of a rank >= 1 buffer, for any operand: one
    container changes, through one bit offset [o]. *)
Lemma ConvertMemrefStore_general
      (s t : Z) (sgOld sgNew : SignednessSemantics)
      (n : nat) (v : Value) (mem : Memory) (i : Z) :
  0 < s < 32 -> 0 < t -> t mod s = 0 ->
  let idx := getIndicesForLoadOrStore i s t in
  let o := (t / s - 1 - i mod (t / s)) * s in
  exists mem',
    ConvertMemrefStore (IntegerType s sgOld) (IntegerType t sgNew) (S n) v mem i =
    Some (success mem') /\
    forall j, mem' j =
              if j =? idx
              then Z.lor (Z.land (mem j) (clearMask s t o))
                         ((bits v * 2 ^ o) mod 2 ^ t)
              else mem j.
Proof.
  intros Hs Ht Hm idx o.
  destruct (scale_facts s t ltac:(lia) Ht Hm) as (_ & Hk & Hks).
  pose proof (rightOffset_bounds i s (t / s) ltac:(lia) Hk) as Ho. fold o in Ho.
  unfold ConvertMemrefStore. cbn [getIntOrFloatBitWidth].
  rewrite rem_is_zero by lia. cbn [negb].
  rewrite getOffsetForBitwidth_right by lia. fold o. fold idx.
  rewrite getAtomicWriteMask_value by lia. cbn [andThen].
  eexists. split; [reflexivity|].
  intros j. unfold AtomicRMWOp, Arith.ShLIOp, Arith.ExtUIOp, Arith.wrap.
  cbn [bitwidth bits].
  destruct (j =? idx); [|reflexivity].
  rewrite Z.shiftl_mul_pow2 by lia. reflexivity.
Qed.

(** C3, as amended.  For a rank >= 1 buffer and a source width below 32,
    the rewritten load brings the element down to bit 0 by shifting the
    container with the offset computed with [rightOffset = false]: it
    returns the element's bits under the mask, and the shifted container at
    the width of the result type under the truncation (the bits from that
    offset on, where they lie inside the container).  The rewritten store
    uses one bit offset both to build the clear mask and to shift the
    extended value into place. *)
Theorem load_and_store_offsets
        (s t : Z) (sgOld sgNew : SignednessSemantics) (resultTy : ElementType)
        (n : nat) (v : Value) (mem : Memory) (i : Z) :
  0 < s < 32 -> 0 < t -> t mod s = 0 ->
  let idx := getIndicesForLoadOrStore i s t in
  let o := bits (getOffsetForBitwidth i s t false) in
  let w := getIntOrFloatBitWidth resultTy in
  (exists r,
      ConvertMemRefLoad (IntegerType s sgOld) (IntegerType t sgNew) resultTy (S n) mem i =
      Some (success r) /\
      (resultTy = IntegerType t sgNew -> bits r = elementBits (mem idx) o s) /\
      (ElementType_eqb resultTy (IntegerType t sgNew) = false ->
       bits r = (Z.shiftr (Arith.signed t (mem idx)) o mod 2 ^ t) mod 2 ^ w) /\
      (ElementType_eqb resultTy (IntegerType t sgNew) = false ->
       0 < w -> o + w <= t -> bits r = elementBits (mem idx) o w))
  /\
  (exists o' mem',
      0 <= o' <= t - s /\
      ConvertMemrefStore (IntegerType s sgOld) (IntegerType t sgNew) (S n) v mem i =
      Some (success mem') /\
      forall j, mem' j =
                if j =? idx
                then Z.lor (Z.land (mem j) (clearMask s t o'))
                           ((bits v * 2 ^ o') mod 2 ^ t)
                else mem j).
Proof.
  intros Hs Ht Hm idx o w. subst idx o w.
  rewrite getOffsetForBitwidth_left by lia. cbn [bits].
  destruct (scale_facts s t ltac:(lia) Ht Hm) as (_ & Hk & Hks).
  pose proof (leftOffset_bounds i s (t / s) ltac:(lia) Hk) as Hb.
  split.
  - destruct (ElementType_eqb resultTy (IntegerType t sgNew)) eqn:E.
    + apply ElementType_eqb_eq in E. subst resultTy.
      rewrite ConvertMemRefLoad_mask by lia.
      eexists. split; [reflexivity|]. cbn [bits].
      split; [reflexivity|]. split; discriminate.
    + rewrite ConvertMemRefLoad_trunc_general by (lia || assumption).
      eexists. split; [reflexivity|]. cbn [bits].
      split; [intros ->; rewrite ElementType_eqb_refl in E; discriminate|].
      split; [reflexivity|].
      intros _ Hw Hin. unfold Arith.wrap at 1.
      apply shrsi_low_bits; lia.
  - destruct (ConvertMemrefStore_general s t sgOld sgNew n v mem i Hs Ht Hm)
      as (mem' & Hst & Hmem').
    exists ((t / s - 1 - i mod (t / s)) * s), mem'.
    split; [|split; assumption].
    pose proof (rightOffset_bounds i s (t / s) ltac:(lia) Hk). lia.
Qed.

Lemma load_and_store_offsets_witness :
  exists r,
    ConvertMemRefLoad (IntegerType 4 Signless) (IntegerType 8 Signless)
                      (IntegerType 4 Signless) 1 (fun _ => 171) 2 =
    Some (success r) /\
    (IntegerType 4 Signless = IntegerType 8 Signless ->
     bits r = elementBits 171 (bits (getOffsetForBitwidth 2 4 8 false)) 4) /\
    (ElementType_eqb (IntegerType 4 Signless) (IntegerType 8 Signless) = false ->
     bits r =
     (Z.shiftr (Arith.signed 8 171) (bits (getOffsetForBitwidth 2 4 8 false)) mod 2 ^ 8)
     mod 2 ^ 4) /\
    (ElementType_eqb (IntegerType 4 Signless) (IntegerType 8 Signless) = false ->
     0 < 4 -> bits (getOffsetForBitwidth 2 4 8 false) + 4 <= 8 ->
     bits r = elementBits 171 (bits (getOffsetForBitwidth 2 4 8 false)) 4).
Proof.
  refine (proj1 (load_and_store_offsets 4 8 Signless Signless (IntegerType 4 Signless)
                   0 (mkValue 4 9) (fun _ => 171) 2 _ _ _));
    [lia | lia | reflexivity].
Defined.

(** C3, as stated, fails: with 4-bit elements in 8-bit containers the load
    of element 0 from the container [0xAB] does not shift by the offset
    computed with [rightOffset = true] (that would yield [0xA]); it yields
    [0xB]. *)
Lemma load_does_not_use_right_offset :
  ConvertMemRefLoad (IntegerType 4 Signless) (IntegerType 8 Signless)
                    (IntegerType 4 Signless) 1 (fun _ => 171) 0
  <> Some (success
             (Arith.TruncIOp 4
                (Arith.ShRSIOp (LoadOp 8 (fun _ => 171)
                                       (getIndicesForLoadOrStore 0 4 8))
                               (getOffsetForBitwidth 0 4 8 true)))).
Proof. vm_compute. discriminate. Qed.

(** C1.  Round trip at 4-bit elements in 8-bit containers, container [0xAB],
    index 0: the rewritten load returns [0xB]; storing it back at index 0
    leaves the container at [0xBB], so the rewritten load of the other
    element (index 1) changes from [0xA] to [0xB]. *)
Theorem roundtrip_overwrites_other_element :
  let oldTy := IntegerType 4 Signless in
  let newTy := IntegerType 8 Signless in
  let mem : Memory := fun _ => 171 in
  exists mem',
    ConvertMemRefLoad oldTy newTy oldTy 1 mem 0 = Some (success (mkValue 4 11)) /\
    ConvertMemrefStore oldTy newTy 1 (mkValue 4 11) mem 0 = Some (success mem') /\
    mem' 0 = 187 /\
    ConvertMemRefLoad oldTy newTy oldTy 1 mem 1 = Some (success (mkValue 4 10)) /\
    ConvertMemRefLoad oldTy newTy oldTy 1 mem' 1 = Some (success (mkValue 4 11)).
Proof.
  cbv zeta. eexists. split; [reflexivity|]. split; [reflexivity|].
  split; [reflexivity|]. split; reflexivity.
Qed.

(** C4.  At source width 32 and target width 64 the literal [1 << srcBits]
    is a 32-bit shift by 32: [getAtomicWriteMask] has no defined value
    where the inverse of [((1 << 32) - 1) << 0] is expected. *)
Theorem getAtomicWriteMask_width_32_in_64 :
  getAtomicWriteMask 1 32 64 (getOffsetForBitwidth 1 32 64 true) = None.
Proof. reflexivity. Qed.

(** ** The type conversion *)

(** C7.  A buffer type whose element type is not an integer, or is an integer
    at least as wide as the load/store width, is returned unchanged; hence
    converting the converted type gives the same type again. *)
Theorem convert_wide_enough_unchanged (loadStoreWidth : Z) (ty : MemRefType) :
  (forall w sg, getElementType ty <> IntegerType w sg) \/
  (exists w sg, getElementType ty = IntegerType w sg /\ loadStoreWidth <= w) ->
  populateMemRefNarrowTypeEmulationConversions loadStoreWidth ty = Some ty /\
  andThen (populateMemRefNarrowTypeEmulationConversions loadStoreWidth ty) (populateMemRefNarrowTypeEmulationConversions loadStoreWidth) =
  populateMemRefNarrowTypeEmulationConversions loadStoreWidth ty.
Proof.
  intros H.
  assert (E : populateMemRefNarrowTypeEmulationConversions loadStoreWidth ty = Some ty).
  { unfold populateMemRefNarrowTypeEmulationConversions, memRefTypeConversion.
    destruct (getElementType ty) as [w sg|w] eqn:Hel; [|reflexivity].
    destruct H as [Hno|(w' & sg' & Heq & Hle)].
    - exfalso. apply (Hno w sg). reflexivity.
    - injection Heq as -> ->.
      replace (loadStoreWidth <=? w') with true
        by (symmetry; apply Z.leb_le; assumption).
      reflexivity. }
  split; [exact E|]. rewrite E. cbn [andThen]. exact E.
Qed.

Lemma convert_wide_enough_unchanged_witness :
  populateMemRefNarrowTypeEmulationConversions 8 (mkMemRefType [10] (IntegerType 32 Signless) IdentityLayout 0) =
  Some (mkMemRefType [10] (IntegerType 32 Signless) IdentityLayout 0).
Proof.
  refine (proj1 (convert_wide_enough_unchanged 8 _ _)).
  right. exists 32, Signless. split; [reflexivity | lia].
Defined.

(** *** Two's-complement wrap-around *)

Lemma wrapSigned_range (w x : Z) :
  0 < w -> - 2 ^ (w - 1) <= wrapSigned w x < 2 ^ (w - 1).
Proof.
  intros Hw. unfold wrapSigned.
  assert (E : 2 ^ w = 2 * 2 ^ (w - 1)).
  { rewrite <- Z.pow_succ_r by lia. f_equal. lia. }
  assert (P : 0 < 2 ^ (w - 1)) by (apply Z.pow_pos_nonneg; lia).
  pose proof (Z.mod_pos_bound (x + 2 ^ (w - 1)) (2 ^ w)). lia.
Qed.

Lemma wrapSigned_small (w x : Z) :
  0 < w -> - 2 ^ (w - 1) <= x < 2 ^ (w - 1) -> wrapSigned w x = x.
Proof.
  intros Hw Hx. unfold wrapSigned.
  assert (E : 2 ^ w = 2 * 2 ^ (w - 1)).
  { rewrite <- Z.pow_succ_r by lia. f_equal. lia. }
  rewrite Z.mod_small by lia. lia.
Qed.

Lemma wrapSigned_decompose (w x : Z) :
  0 < w -> exists q, wrapSigned w x = x + q * 2 ^ w.
Proof.
  intros Hw. unfold wrapSigned.
  exists (- ((x + 2 ^ (w - 1)) / 2 ^ w)).
  assert (P : 0 < 2 ^ w) by (apply Z.pow_pos_nonneg; lia).
  pose proof (Z.div_mod (x + 2 ^ (w - 1)) (2 ^ w)). lia.
Qed.

Lemma wrapSigned_shift (w x q : Z) : wrapSigned w (x + q * 2 ^ w) = wrapSigned w x.
Proof.
  unfold wrapSigned. f_equal.
  replace (x + q * 2 ^ w + 2 ^ (w - 1)) with (x + 2 ^ (w - 1) + q * 2 ^ w) by lia.
  apply Z_mod_plus_full.
Qed.

Lemma wrapSigned_mul_l (w x y : Z) :
  0 < w -> wrapSigned w (wrapSigned w x * y) = wrapSigned w (x * y).
Proof.
  intros Hw. destruct (wrapSigned_decompose w x Hw) as [q ->].
  replace ((x + q * 2 ^ w) * y) with (x * y + (q * y) * 2 ^ w) by lia.
  apply wrapSigned_shift.
Qed.

Lemma wrapSigned_add_l (w x y : Z) :
  0 < w -> wrapSigned w (wrapSigned w x + y) = wrapSigned w (x + y).
Proof.
  intros Hw. destruct (wrapSigned_decompose w x Hw) as [q ->].
  replace (x + q * 2 ^ w + y) with (x + y + q * 2 ^ w) by lia.
  apply wrapSigned_shift.
Qed.

(** *** The linearized shape *)

Lemma linearizedShapeLoop_dynamic (shape : list Z) (acc : Z) :
  existsb isDynamic shape = true -> linearizedShapeLoop shape acc = None.
Proof.
  revert acc. induction shape as [|d rest IH]; intros acc H; [discriminate|].
  cbn [linearizedShapeLoop existsb] in *. unfold isDynamic at 1 in H.
  destruct (d =? kDynamic); [reflexivity|apply IH; assumption].
Qed.

Lemma linearizedShapeLoop_static (shape : list Z) (acc : Z) :
  existsb isDynamic shape = false ->
  - 2 ^ 63 <= acc < 2 ^ 63 ->
  linearizedShapeLoop shape acc = Some (wrapInt64 (acc * numElements shape)).
Proof.
  revert acc. induction shape as [|d rest IH]; intros acc H Hacc.
  - cbn [linearizedShapeLoop numElements fold_right]. unfold wrapInt64.
    rewrite Z.mul_1_r, wrapSigned_small; [reflexivity|lia|].
    change (64 - 1) with 63. assumption.
  - cbn [linearizedShapeLoop existsb numElements fold_right] in *.
    fold (numElements rest).
    unfold isDynamic at 1 in H. apply orb_false_iff in H. destruct H as [Hd Hrest].
    rewrite Hd, IH.
    + f_equal. unfold wrapInt64. rewrite wrapSigned_mul_l by lia. f_equal. lia.
    + assumption.
    + apply (wrapSigned_range 64); lia.
Qed.

(** *** What the conversion returns for a narrow element *)

Section NarrowConversion.

Variables (loadStoreWidth w : Z) (sg : SignednessSemantics) (ty : MemRefType).
Hypothesis elem : getElementType ty = IntegerType w sg.
Hypothesis narrow : w < loadStoreWidth.

Let converted (layout : Layout) : MemRefType :=
  mkMemRefType (getLinearizedShape ty w loadStoreWidth)
               (IntegerType loadStoreWidth sg) layout (getMemorySpace ty).

Let build (layout : Layout) : Conversion :=
  if verifyMemRefType (converted layout) then Converted (converted layout)
  else Refused.

Lemma memRefTypeConversion_narrow_strided (strides : list Z) (offset : Z) :
  getStridesAndOffset ty = Some (strides, offset) ->
  strides = [] \/ last strides 0 = 1 ->
  memRefTypeConversion loadStoreWidth ty =
  if offset =? 0 then build IdentityLayout
  else if offset =? kDynamic then build (StridedLayoutAttr kDynamic [1])
  else if Z.rem (wrapInt64 (offset * w)) loadStoreWidth =? 0
       then build (StridedLayoutAttr
                     (Z.quot (wrapInt64 (offset * w)) loadStoreWidth) [1])
       else NoConversion.
Proof.
  intros Hso Hunit. unfold memRefTypeConversion.
  rewrite elem, Hso.
  replace (loadStoreWidth <=? w) with false by (symmetry; apply Z.leb_gt; assumption).
  replace (negb (Nat.eqb (List.length strides) 0) && negb (last strides 0 =? 1))
    with false.
  2:{ destruct Hunit as [-> | ->]; [reflexivity|].
      rewrite Z.eqb_refl, andb_false_r. reflexivity. }
  destruct (offset =? 0); cbn [negb]; [reflexivity|].
  destruct (offset =? kDynamic) eqn:Ed.
  - apply Z.eqb_eq in Ed. subst offset. reflexivity.
  - destruct (Z.rem (wrapInt64 (offset * w)) loadStoreWidth =? 0); reflexivity.
Qed.

Lemma convert_narrow_inv (ty' : MemRefType) :
  populateMemRefNarrowTypeEmulationConversions loadStoreWidth ty = Some ty' ->
  exists layout, ty' = converted layout.
Proof.
  unfold populateMemRefNarrowTypeEmulationConversions, memRefTypeConversion,
    MemRefType_get.
  rewrite elem.
  replace (loadStoreWidth <=? w) with false by (symmetry; apply Z.leb_gt; assumption).
  destruct (getStridesAndOffset ty) as [[strides offset]|]; [|discriminate].
  destruct (negb (Nat.eqb (List.length strides) 0) && negb (last strides 0 =? 1));
    [discriminate|].
  destruct (negb (offset =? 0)).
  - destruct (offset =? kDynamic).
    + destruct (verifyMemRefType _); [|discriminate].
      intros H. injection H as <-. eexists. reflexivity.
    + destruct (negb (Z.rem (wrapInt64 (offset * w)) loadStoreWidth =? 0));
        [discriminate|].
      destruct (verifyMemRefType _); [|discriminate].
      intros H. injection H as <-. eexists. reflexivity.
  - destruct (verifyMemRefType _); [|discriminate].
    intros H. injection H as <-. eexists. reflexivity.
Qed.

End NarrowConversion.

(** C5, as amended.  For a buffer type of rank >= 1 with a narrow integer
    element that the conversion accepts: a dynamic dimension gives the shape
    of one dynamic dimension; otherwise, for non-negative sizes whose product
    [total] satisfies [total + scale - 1 < 2^63], the shape is the single
    dimension [ceil (total / scale)], that is the [r] with
    [(r - 1) * scale < total <= r * scale]. *)
Theorem converted_shape_is_linearized
        (loadStoreWidth w : Z) (sg : SignednessSemantics) (ty ty' : MemRefType) :
  getElementType ty = IntegerType w sg -> 0 < w < loadStoreWidth ->
  getShape ty <> [] ->
  populateMemRefNarrowTypeEmulationConversions loadStoreWidth ty = Some ty' ->
  let scale := loadStoreWidth / w in
  let total := numElements (getShape ty) in
  (existsb isDynamic (getShape ty) = true -> getShape ty' = [kDynamic]) /\
  (existsb isDynamic (getShape ty) = false ->
   0 <= total -> total + scale - 1 < 2 ^ 63 ->
   exists r, getShape ty' = [r] /\ (r - 1) * scale < total <= r * scale).
Proof.
  intros Hel Hw Hrank Hconv scale total.
  destruct (convert_narrow_inv loadStoreWidth w sg ty Hel ltac:(lia) ty' Hconv)
    as [layout ->].
  cbn [getShape]. unfold getLinearizedShape, getRank.
  destruct (getShape ty) as [|d rest] eqn:Hshape; [contradiction|].
  cbn [List.length]. split.
  - intros Hdyn. rewrite linearizedShapeLoop_dynamic by assumption. reflexivity.
  - intros Hstat Htot Hfit. subst total.
    rewrite linearizedShapeLoop_static by (assumption || lia).
    rewrite Z.mul_1_l.
    assert (Hq : Z.quot loadStoreWidth w = scale)
      by (apply Z.quot_div_nonneg; lia).
    assert (Hscale : 0 < scale) by (apply Z.div_str_pos; lia).
    rewrite Hq. unfold wrapInt64.
    rewrite (wrapSigned_add_l 64 _ scale) by lia.
    replace (wrapSigned 64 (numElements (d :: rest) + scale) - 1)
      with (wrapSigned 64 (numElements (d :: rest) + scale) + -1) by lia.
    rewrite (wrapSigned_add_l 64 _ (-1)) by lia.
    rewrite wrapSigned_small by (change (64 - 1) with 63; lia).
    rewrite Z.quot_div_nonneg by lia.
    eexists. split; [reflexivity|].
    pose proof (Z.div_mod (numElements (d :: rest) + scale + -1) scale ltac:(lia)).
    pose proof (Z.mod_pos_bound (numElements (d :: rest) + scale + -1) scale Hscale).
    nia.
Qed.

Lemma converted_shape_is_linearized_witness :
  exists r,
    getShape (mkMemRefType [5] (IntegerType 8 Unsigned) IdentityLayout 0) = [r] /\
    (r - 1) * (8 / 4) < numElements [10] <= r * (8 / 4).
Proof.
  refine (proj2 (converted_shape_is_linearized 8 4 Unsigned
                   (mkMemRefType [10] (IntegerType 4 Unsigned) IdentityLayout 0)
                   (mkMemRefType [5] (IntegerType 8 Unsigned) IdentityLayout 0)
                   _ _ _ _) _ _ _);
    [reflexivity | lia | discriminate | reflexivity | reflexivity
     | cbn; lia | cbn; lia].
Defined.

(** C5, as stated, fails at rank 0: [memref<i4>] converts to a type of
    empty shape, not to one of the single dimension [ceil (1 / 2) = 1]. *)
Lemma converted_shape_rank_0_is_empty :
  exists ty',
    populateMemRefNarrowTypeEmulationConversions
      8 (mkMemRefType [] (IntegerType 4 Signless) IdentityLayout 0) = Some ty' /\
    getShape ty' = [] /\
    getShape ty' <> [(numElements [] + 8 / 4 - 1) / (8 / 4)].
Proof.
  eexists. split; [reflexivity|]. split; [reflexivity|]. discriminate.
Qed.

(** C9, as amended.  A rank-0 buffer type with a narrow integer element and
    a strided layout of offset 0 (the identity layout is one) is converted
    to a type of empty shape, with an integer element of the load/store
    width and the signedness of the original, in the original memory space.
    With a static non-zero offset whose bit offset is not a multiple of the
    load/store width there is no conversion. *)
Theorem convert_rank_0
        (loadStoreWidth w : Z) (sg : SignednessSemantics) (ty : MemRefType)
        (offset : Z) :
  getShape ty = [] ->
  getElementType ty = IntegerType w sg -> w < loadStoreWidth ->
  getStridesAndOffset ty = Some ([], offset) ->
  (offset = 0 ->
   exists ty',
     populateMemRefNarrowTypeEmulationConversions loadStoreWidth ty = Some ty' /\
     getShape ty' = [] /\
     getElementType ty' = IntegerType loadStoreWidth sg /\
     getMemorySpace ty' = getMemorySpace ty)
  /\
  (offset <> 0 -> offset <> kDynamic ->
   Z.rem (wrapInt64 (offset * w)) loadStoreWidth <> 0 ->
   populateMemRefNarrowTypeEmulationConversions loadStoreWidth ty = None).
Proof.
  intros Hshape Hel Hw Hso.
  unfold populateMemRefNarrowTypeEmulationConversions.
  rewrite (memRefTypeConversion_narrow_strided loadStoreWidth w sg ty Hel Hw [] offset Hso)
    by (left; reflexivity).
  split.
  - intros ->. cbn [Z.eqb].
    unfold getLinearizedShape, getRank. rewrite Hshape. cbn.
    eexists. repeat split.
  - intros H0 Hd Hrem.
    replace (offset =? 0) with false by (symmetry; apply Z.eqb_neq; assumption).
    replace (offset =? kDynamic) with false by (symmetry; apply Z.eqb_neq; assumption).
    replace (Z.rem (wrapInt64 (offset * w)) loadStoreWidth =? 0) with false
      by (symmetry; apply Z.eqb_neq; assumption).
    reflexivity.
Qed.

Lemma convert_rank_0_witness :
  exists ty',
    populateMemRefNarrowTypeEmulationConversions
      8 (mkMemRefType [] (IntegerType 4 Signed) (StridedLayoutAttr 0 []) 3) = Some ty' /\
    getShape ty' = [] /\
    getElementType ty' = IntegerType 8 Signed /\
    getMemorySpace ty' = 3.
Proof.
  refine (proj1 (convert_rank_0 8 4 Signed
                   (mkMemRefType [] (IntegerType 4 Signed) (StridedLayoutAttr 0 []) 3)
                   0 _ _ _ _) _);
    [reflexivity | reflexivity | lia | reflexivity | reflexivity].
Defined.

(** C9, as stated, fails: the rank-0 type [memref<i4, strided<[], offset: 1>>]
    has a narrow integer element and is not converted at load/store width 8,
    as [1 * 4] is not a multiple of 8. *)
Lemma convert_rank_0_odd_offset :
  populateMemRefNarrowTypeEmulationConversions
    8 (mkMemRefType [] (IntegerType 4 Signless) (StridedLayoutAttr 1 []) 0) = None.
Proof. reflexivity. Qed.

Lemma rem_zero_iff_mod_zero (a b : Z) : 0 < b -> Z.rem a b = 0 <-> a mod b = 0.
Proof.
  intros Hb. rewrite Z.rem_divide, Z.mod_divide by lia. reflexivity.
Qed.

Lemma quot_exact_div (a b : Z) : 0 < b -> a mod b = 0 -> Z.quot a b = a / b.
Proof.
  intros Hb Hm.
  assert (E : a = b * (a / b)) by (apply Z.div_exact; lia).
  rewrite E at 1. rewrite Z.mul_comm. apply Z.quot_mul. lia.
Qed.

(** C6.  At offset [2^62], original width 4 and load/store width 8 the
    product [offset * width] leaves the 64-bit range and wraps to 0: the
    bit offset [2^64] is a multiple of 8, the conversion succeeds, and the
    new offset is 0 where [(offset * width) / loadStoreWidth] is [2^61]. *)
Theorem converted_layout_offset_wraps :
  (2 ^ 62 * 4) mod 8 = 0 /\
  populateMemRefNarrowTypeEmulationConversions
    8 (mkMemRefType [10] (IntegerType 4 Signless) (StridedLayoutAttr (2 ^ 62) [1]) 0) =
  Some (mkMemRefType [5] (IntegerType 8 Signless) (StridedLayoutAttr 0 [1]) 0) /\
  StridedLayoutAttr 0 [1] <> StridedLayoutAttr (2 ^ 62 * 4 / 8) [1].
Proof.
  split; [reflexivity|]. split; [vm_compute; reflexivity|].
  vm_compute. discriminate.
Qed.

(** ** Rejection of a subview with a stride other than 1 *)




(** * Further properties of the helpers and patterns *)

(** ** Bit addressing *)

(** X1.  The offset from the left and the offset from the right of the same
    element add up to the container width less the element width. *)
Theorem offsets_complementary (i s t : Z) :
  0 < s -> 0 < t -> t mod s = 0 ->
  bits (getOffsetForBitwidth i s t false) + bits (getOffsetForBitwidth i s t true)
  = t - s.
Proof.
  intros Hs Ht Hm.
  rewrite getOffsetForBitwidth_left, getOffsetForBitwidth_right by assumption.
  cbn [bits].
  destruct (scale_facts s t Hs Ht Hm) as (_ & _ & Hks). lia.
Qed.

Lemma offsets_complementary_witness :
  bits (getOffsetForBitwidth 5 2 8 false) + bits (getOffsetForBitwidth 5 2 8 true)
  = 8 - 2.
Proof. apply (offsets_complementary 5 2 8); [lia | lia | reflexivity]. Defined.

(** X2.  The scaled index and the left offset together are the bit address
    of the element: container index times container width plus offset is
    the linear index times the element width. *)
Theorem scaled_index_and_offset_give_bit_address (i s t : Z) :
  0 < s -> 0 < t -> t mod s = 0 ->
  getIndicesForLoadOrStore i s t * t + bits (getOffsetForBitwidth i s t false)
  = i * s.
Proof.
  intros Hs Ht Hm.
  rewrite getOffsetForBitwidth_left by assumption. cbn [bits].
  destruct (scale_facts s t Hs Ht Hm) as (Hq & Hk & Hks).
  unfold getIndicesForLoadOrStore. rewrite Hq.
  pose proof (Z.div_mod i (t / s) ltac:(lia)) as Hdm.
  rewrite <- Hks at 2. nia.
Qed.

Lemma scaled_index_and_offset_give_bit_address_witness :
  getIndicesForLoadOrStore 11 4 8 * 8 + bits (getOffsetForBitwidth 11 4 8 false)
  = 11 * 4.
Proof.
  apply (scaled_index_and_offset_give_bit_address 11 4 8); [lia | lia | reflexivity].
Defined.

(** X3.  Below source width 32 the write mask of the store is
    defined, has the container width, and bit [j] of it inside the container
    is zero exactly when [j] lies in the [s] positions from the store's
    offset on. *)
Theorem write_mask_bits (i s t j : Z) :
  0 < s < 32 -> 0 < t -> t mod s = 0 -> 0 <= j < t ->
  let o := bits (getOffsetForBitwidth i s t true) in
  exists m,
    getAtomicWriteMask i s t (getOffsetForBitwidth i s t true) = Some m /\
    bitwidth m = t /\
    Z.testbit (bits m) j = negb ((o <=? j) && (j <? o + s)).
Proof.
  intros Hs Ht Hm Hj o. subst o.
  rewrite getAtomicWriteMask_below_32 by assumption.
  rewrite getOffsetForBitwidth_right by lia. cbn [bits].
  destruct (scale_facts s t ltac:(lia) Ht Hm) as (_ & Hk & Hks).
  pose proof (rightOffset_bounds i s (t / s) ltac:(lia) Hk).
  eexists. split; [reflexivity|]. split; [reflexivity|]. cbn [bits].
  apply clearMask_testbit; lia.
Qed.

Lemma write_mask_bits_witness :
  exists m,
    getAtomicWriteMask 0 4 8 (getOffsetForBitwidth 0 4 8 true) = Some m /\
    bitwidth m = 8 /\
    Z.testbit (bits m) 5 =
    negb ((bits (getOffsetForBitwidth 0 4 8 true) <=? 5)
          && (5 <? bits (getOffsetForBitwidth 0 4 8 true) + 4)).
Proof.
  apply (write_mask_bits 0 4 8 5); [lia | lia | reflexivity | lia].
Defined.

(** ** What a store changes *)

Lemma elementBits_ext (x y o s : Z) :
  0 <= o -> 0 <= s ->
  (forall j, o <= j < o + s -> Z.testbit x j = Z.testbit y j) ->
  elementBits x o s = elementBits y o s.
Proof.
  intros Ho Hs H. unfold elementBits.
  rewrite <- !Z.shiftr_div_pow2, <- !Z.land_ones by assumption.
  apply Z.bits_inj'. intros n Hn.
  rewrite !Z.land_spec, !Z.shiftr_spec by assumption.
  destruct (Z_lt_ge_dec n s) as [Hlt|Hge].
  - rewrite H by lia. reflexivity.
  - rewrite Z.ones_spec_high by lia. rewrite !andb_false_r. reflexivity.
Qed.

Lemma testbit_above_width (v s j : Z) :
  0 <= v < 2 ^ s -> 0 <= s <= j -> Z.testbit v j = false.
Proof.
  intros Hv Hj. rewrite <- (Z.mod_small v (2 ^ s)) by assumption.
  apply Z.mod_pow2_bits_high. assumption.
Qed.

Lemma elementBits_of_small (v s : Z) : 0 <= v < 2 ^ s -> elementBits v 0 s = v.
Proof.
  intros Hv. unfold elementBits. rewrite Z.pow_0_r, Z.div_1_r.
  apply Z.mod_small. assumption.
Qed.

(** Bit [j] of a container after the clear and the merge at offset [o]. *)
Lemma stored_testbit (c v s t o j : Z) :
  0 < s -> 0 <= o -> o + s <= t -> 0 <= v < 2 ^ s -> 0 <= j < t ->
  Z.testbit (Z.lor (Z.land c (clearMask s t o)) (v * 2 ^ o)) j =
  if (o <=? j) && (j <? o + s) then Z.testbit v (j - o) else Z.testbit c j.
Proof.
  intros Hs Ho Hos Hv Hj.
  rewrite Z.lor_spec, Z.land_spec, clearMask_testbit by lia.
  rewrite <- Z.shiftl_mul_pow2, Z.shiftl_spec by lia.
  destruct (Z.leb_spec o j) as [Hoj|Hoj]; cbn [andb].
  - destruct (Z.ltb_spec j (o + s)) as [Hjs|Hjs]; cbn [negb].
    + rewrite andb_false_r. reflexivity.
    + rewrite andb_true_r, (testbit_above_width v s (j - o)) by lia.
      apply orb_false_r.
  - cbn [negb]. rewrite andb_true_r, (Z.testbit_neg_r v (j - o)) by lia.
    apply orb_false_r.
Qed.

(** The value of the rewritten load below source width 32, whichever of the
    two result types it has. *)
Lemma ConvertMemRefLoad_value
      (s t : Z) (sgOld sgNew : SignednessSemantics) (resultTy : ElementType)
      (n : nat) (mem : Memory) (i : Z) :
  0 < s < 32 -> 0 < t -> t mod s = 0 ->
  resultTy = IntegerType t sgNew \/ getIntOrFloatBitWidth resultTy = s ->
  ConvertMemRefLoad (IntegerType s sgOld) (IntegerType t sgNew) resultTy (S n) mem i =
  Some (success
          (mkValue (if ElementType_eqb resultTy (IntegerType t sgNew) then t else s)
                   (elementBits (mem (getIndicesForLoadOrStore i s t))
                                (i mod (t / s) * s) s))).
Proof.
  intros Hs Ht Hm Hres.
  destruct (ElementType_eqb resultTy (IntegerType t sgNew)) eqn:E.
  - apply ElementType_eqb_eq in E. subst resultTy.
    apply ConvertMemRefLoad_mask; lia.
  - destruct Hres as [-> | Hw]; [rewrite ElementType_eqb_refl in E; discriminate|].
    apply ConvertMemRefLoad_trunc; solve [lia | assumption].
Qed.

(** Bit [j] of a container after the clear and the merge at offset [o],
    for any operand. *)
Lemma stored_testbit_general (c v s t o j : Z) :
  0 < s -> 0 <= o -> o + s <= t -> 0 <= j < t ->
  Z.testbit (Z.lor (Z.land c (clearMask s t o)) ((v * 2 ^ o) mod 2 ^ t)) j =
  (Z.testbit c j && negb ((o <=? j) && (j <? o + s))) || Z.testbit v (j - o).
Proof.
  intros Hs Ho Hos Hj.
  rewrite Z.lor_spec, Z.land_spec, clearMask_testbit by lia.
  rewrite Z.mod_pow2_bits_low by lia.
  rewrite <- Z.shiftl_mul_pow2, Z.shiftl_spec by lia. reflexivity.
Qed.

(** X4.  Below source width 32 the rewritten store of a rank >= 1 buffer
    leaves every other container as it was.  In the addressed container,
    bit [j] becomes the operand's bit [j - o], or-ed with the old bit where
    [j] lies outside the [s] positions from the store's offset [o] on: the
    slot takes the operand's low [s] bits and the bits below it are kept;
    the bits above it are kept too when the operand fits in [s] bits. *)
Theorem store_touches_only_its_bits
        (s t : Z) (sgOld sgNew : SignednessSemantics)
        (n : nat) (v : Value) (mem : Memory) (i : Z) :
  0 < s < 32 -> 0 < t -> t mod s = 0 ->
  let idx := getIndicesForLoadOrStore i s t in
  let o := bits (getOffsetForBitwidth i s t true) in
  exists mem',
    ConvertMemrefStore (IntegerType s sgOld) (IntegerType t sgNew) (S n) v mem i =
    Some (success mem') /\
    (forall k, k <> idx -> mem' k = mem k) /\
    (forall j, 0 <= j < t ->
               Z.testbit (mem' idx) j =
               (Z.testbit (mem idx) j && negb ((o <=? j) && (j <? o + s)))
               || Z.testbit (bits v) (j - o)) /\
    (0 <= bits v < 2 ^ s ->
     forall j, 0 <= j < t ->
               Z.testbit (mem' idx) j =
               if (o <=? j) && (j <? o + s)
               then Z.testbit (bits v) (j - o)
               else Z.testbit (mem idx) j).
Proof.
  intros Hs Ht Hm idx o. subst o.
  rewrite getOffsetForBitwidth_right by lia. cbn [bits].
  destruct (ConvertMemrefStore_general s t sgOld sgNew n v mem i Hs Ht Hm)
    as (mem' & Hst & Hmem').
  destruct (scale_facts s t ltac:(lia) Ht Hm) as (_ & Hk & Hks).
  pose proof (rightOffset_bounds i s (t / s) ltac:(lia) Hk).
  set (o := (t / s - 1 - i mod (t / s)) * s) in *.
  assert (Hbits : forall j, 0 <= j < t ->
            Z.testbit (mem' idx) j =
            (Z.testbit (mem idx) j && negb ((o <=? j) && (j <? o + s)))
            || Z.testbit (bits v) (j - o)).
  { intros j Hj. rewrite Hmem'. fold idx. rewrite Z.eqb_refl.
    apply stored_testbit_general; lia. }
  exists mem'. split; [exact Hst|]. split; [|split; [exact Hbits|]].
  - intros k Hk'. rewrite Hmem'. fold idx.
    replace (k =? idx) with false by (symmetry; apply Z.eqb_neq; assumption).
    reflexivity.
  - intros Hv j Hj. rewrite Hbits by assumption.
    destruct (Z.leb_spec o j) as [Hoj|Hoj]; cbn [andb].
    + destruct (Z.ltb_spec j (o + s)) as [Hjs|Hjs]; cbn [negb].
      * rewrite andb_false_r. reflexivity.
      * rewrite andb_true_r, (testbit_above_width (bits v) s (j - o)) by lia.
        apply orb_false_r.
    + cbn [negb]. rewrite andb_true_r, (Z.testbit_neg_r (bits v) (j - o)) by lia.
      apply orb_false_r.
Qed.

Lemma store_touches_only_its_bits_witness :
  exists mem',
    ConvertMemrefStore (IntegerType 4 Signless) (IntegerType 8 Signless) 1
                       (mkValue 4 9) (fun _ => 171) 2 =
    Some (success mem') /\
    (forall k, k <> getIndicesForLoadOrStore 2 4 8 -> mem' k = 171).
Proof.
  destruct (store_touches_only_its_bits 4 8 Signless Signless 0 (mkValue 4 9)
              (fun _ => 171) 2) as (mem' & Hst & Hother & _);
    [lia | lia | reflexivity |].
  exists mem'. split; [exact Hst | exact Hother].
Defined.

(** The low [s] bits of what the rewritten load returns are the element's
    bits, for a result type that is the container type or at least as wide
    as the element. *)
Lemma ConvertMemRefLoad_low_bits
      (s t : Z) (sgOld sgNew : SignednessSemantics) (resultTy : ElementType)
      (n : nat) (mem : Memory) (i : Z) :
  0 < s < 32 -> 0 < t -> t mod s = 0 ->
  resultTy = IntegerType t sgNew \/ s <= getIntOrFloatBitWidth resultTy ->
  exists r,
    ConvertMemRefLoad (IntegerType s sgOld) (IntegerType t sgNew) resultTy (S n) mem i =
    Some (success r) /\
    bits r mod 2 ^ s =
    elementBits (mem (getIndicesForLoadOrStore i s t)) (i mod (t / s) * s) s.
Proof.
  intros Hs Ht Hm Hres.
  destruct (scale_facts s t ltac:(lia) Ht Hm) as (_ & Hk & Hks).
  pose proof (leftOffset_bounds i s (t / s) ltac:(lia) Hk) as Hb.
  destruct (ElementType_eqb resultTy (IntegerType t sgNew)) eqn:E.
  - apply ElementType_eqb_eq in E. subst resultTy.
    rewrite ConvertMemRefLoad_mask by lia.
    eexists. split; [reflexivity|]. cbn [bits].
    unfold elementBits. apply Z.mod_mod.
    assert (0 < 2 ^ s) by (apply Z.pow_pos_nonneg; lia). lia.
  - destruct Hres as [-> | Hw]; [rewrite ElementType_eqb_refl in E; discriminate|].
    rewrite ConvertMemRefLoad_trunc_general by (lia || assumption).
    eexists. split; [reflexivity|]. cbn [bits].
    unfold Arith.wrap at 1. rewrite mod_pow2_mod_pow2 by lia.
    apply shrsi_low_bits; lia.
Qed.

(** X5.  Below source width 32, and for a result type of the load that is
    the container type or at least as wide as the element: after a store at
    index [i], the load of an index [i'] of the same container whose offset
    from the left is the store's offset from the right returns, in its low
    [s] bits, the low [s] bits of the stored operand. *)
Theorem store_then_load_of_mirrored_index
        (s t : Z) (sgOld sgNew : SignednessSemantics) (resultTy : ElementType)
        (n : nat) (v : Value) (mem : Memory) (i i' : Z) :
  0 < s < 32 -> 0 < t -> t mod s = 0 ->
  resultTy = IntegerType t sgNew \/ s <= getIntOrFloatBitWidth resultTy ->
  getIndicesForLoadOrStore i' s t = getIndicesForLoadOrStore i s t ->
  bits (getOffsetForBitwidth i' s t false) = bits (getOffsetForBitwidth i s t true) ->
  exists mem' r,
    ConvertMemrefStore (IntegerType s sgOld) (IntegerType t sgNew) (S n) v mem i =
    Some (success mem') /\
    ConvertMemRefLoad (IntegerType s sgOld) (IntegerType t sgNew) resultTy (S n) mem' i' =
    Some (success r) /\
    bits r mod 2 ^ s = bits v mod 2 ^ s.
Proof.
  intros Hs Ht Hm Hres Hidx Hoff.
  rewrite getOffsetForBitwidth_left, getOffsetForBitwidth_right in Hoff by lia.
  cbn [bits] in Hoff.
  destruct (ConvertMemrefStore_general s t sgOld sgNew n v mem i Hs Ht Hm)
    as (mem' & Hst & Hmem').
  destruct (ConvertMemRefLoad_low_bits s t sgOld sgNew resultTy n mem' i' Hs Ht Hm Hres)
    as (r & Hload & Hr).
  destruct (scale_facts s t ltac:(lia) Ht Hm) as (_ & Hk & Hks).
  pose proof (rightOffset_bounds i s (t / s) ltac:(lia) Hk) as Hb.
  exists mem', r. split; [exact Hst|]. split; [exact Hload|].
  rewrite Hr, Hidx, Hoff, Hmem', Z.eqb_refl.
  set (o := (t / s - 1 - i mod (t / s)) * s) in *.
  assert (P2o : 0 < 2 ^ o) by (apply Z.pow_pos_nonneg; lia).
  transitivity (elementBits (bits v * 2 ^ o) o s).
  - apply elementBits_ext; [lia | lia |].
    intros j Hj. rewrite stored_testbit_general by lia.
    replace ((o <=? j) && (j <? o + s)) with true.
    2:{ symmetry. apply andb_true_iff. split; [apply Z.leb_le | apply Z.ltb_lt]; lia. }
    cbn [negb]. rewrite andb_false_r. cbn [orb].
    rewrite <- Z.shiftl_mul_pow2, Z.shiftl_spec by lia. reflexivity.
  - unfold elementBits. rewrite Z.div_mul by lia. reflexivity.
Qed.

Lemma store_then_load_of_mirrored_index_witness :
  exists mem' r,
    ConvertMemrefStore (IntegerType 4 Signless) (IntegerType 8 Signless) 1
                       (mkValue 4 9) (fun _ => 171) 2 =
    Some (success mem') /\
    ConvertMemRefLoad (IntegerType 4 Signless) (IntegerType 8 Signless)
                      (IntegerType 4 Signless) 1 mem' 3 =
    Some (success r) /\
    bits r mod 2 ^ 4 = 9 mod 2 ^ 4.
Proof.
  apply (store_then_load_of_mirrored_index 4 8 Signless Signless
           (IntegerType 4 Signless) 0 (mkValue 4 9) (fun _ => 171) 2 3);
    [lia | lia | reflexivity | right; cbn; lia | reflexivity | reflexivity].
Defined.

(** X6.  Below source width 32, for an operand that fits in [s] bits and a
    result type of the load that is the container type or has the element's
    width: a store at index [i] does not change what the load of an index
    [i'] returns when [i'] lies in another container, or in the same
    container at an offset from the left other than the store's offset from
    the right. *)
Theorem store_leaves_other_loads
        (s t : Z) (sgOld sgNew : SignednessSemantics) (resultTy : ElementType)
        (n : nat) (v : Value) (mem : Memory) (i i' : Z) :
  0 < s < 32 -> 0 < t -> t mod s = 0 -> 0 <= bits v < 2 ^ s ->
  resultTy = IntegerType t sgNew \/ getIntOrFloatBitWidth resultTy = s ->
  getIndicesForLoadOrStore i' s t <> getIndicesForLoadOrStore i s t \/
  bits (getOffsetForBitwidth i' s t false) <> bits (getOffsetForBitwidth i s t true) ->
  exists mem',
    ConvertMemrefStore (IntegerType s sgOld) (IntegerType t sgNew) (S n) v mem i =
    Some (success mem') /\
    ConvertMemRefLoad (IntegerType s sgOld) (IntegerType t sgNew) resultTy (S n) mem' i' =
    ConvertMemRefLoad (IntegerType s sgOld) (IntegerType t sgNew) resultTy (S n) mem i'.
Proof.
  intros Hs Ht Hm Hv Hres Hother.
  rewrite getOffsetForBitwidth_left, getOffsetForBitwidth_right in Hother by lia.
  cbn [bits] in Hother.
  destruct (ConvertMemrefStore_value s t sgOld sgNew ltac:(lia) Ht Hm n v mem i)
    as (mem' & Hst & Hmem'); [lia | assumption |].
  destruct (scale_facts s t ltac:(lia) Ht Hm) as (_ & Hk & Hks).
  pose proof (rightOffset_bounds i s (t / s) ltac:(lia) Hk) as Hb.
  pose proof (leftOffset_bounds i' s (t / s) ltac:(lia) Hk) as Hb'.
  exists mem'. split; [exact Hst|].
  rewrite !ConvertMemRefLoad_value by assumption.
  do 3 f_equal. rewrite Hmem'.
  destruct (Z.eqb_spec (getIndicesForLoadOrStore i' s t) (getIndicesForLoadOrStore i s t))
    as [Heq|Hne]; [|reflexivity].
  destruct Hother as [Hc|Ho]; [contradiction|].
  set (a := i' mod (t / s)) in *. set (b := t / s - 1 - i mod (t / s)) in *.
  assert (Hdisj : a * s + s <= b * s \/ b * s + s <= a * s).
  { destruct (Z_lt_ge_dec a b); [left; nia|right].
    assert (a <> b) by (intros ->; apply Ho; reflexivity). nia. }
  apply elementBits_ext; [lia | lia |].
  intros j Hj. rewrite stored_testbit by lia.
  replace ((b * s <=? j) && (j <? b * s + s)) with false; [reflexivity|].
  symmetry. apply andb_false_iff.
  destruct Hdisj; [left; apply Z.leb_gt | right; apply Z.ltb_ge]; lia.
Qed.

Lemma store_leaves_other_loads_witness :
  exists mem',
    ConvertMemrefStore (IntegerType 4 Signless) (IntegerType 8 Signless) 1
                       (mkValue 4 9) (fun _ => 171) 2 =
    Some (success mem') /\
    ConvertMemRefLoad (IntegerType 4 Signless) (IntegerType 8 Signless)
                      (IntegerType 4 Signless) 1 mem' 2 =
    ConvertMemRefLoad (IntegerType 4 Signless) (IntegerType 8 Signless)
                      (IntegerType 4 Signless) 1 (fun _ => 171) 2.
Proof.
  apply (store_leaves_other_loads 4 8 Signless Signless
           (IntegerType 4 Signless) 0 (mkValue 4 9) (fun _ => 171) 2 2);
    [lia | lia | reflexivity | cbn; lia | right; reflexivity
     | right; discriminate].
Defined.

(** ** Rank-0 buffers *)

Lemma wrapInt_small (x : Z) : - 2 ^ 31 <= x < 2 ^ 31 -> wrapInt x = x.
Proof.
  intros Hx. unfold wrapInt. apply wrapSigned_small; [lia|].
  change (32 - 1) with 31. assumption.
Qed.

(** The single container after the rewritten store of a rank-0 buffer. *)
Lemma ConvertMemrefStore_rank_0
      (s t : Z) (sgOld sgNew : SignednessSemantics)
      (v : Value) (mem : Memory) (i : Z) :
  0 < s -> s <= t -> t - s < 32 -> t mod s = 0 -> 0 <= bits v < 2 ^ s ->
  exists mem',
    ConvertMemrefStore (IntegerType s sgOld) (IntegerType t sgNew) O v mem i =
    Some (success mem') /\
    (forall k, k <> 0 -> mem' k = mem k) /\
    mem' 0 = Z.lor (Z.land (mem 0) (Z.ones (t - s))) (Z.shiftl (bits v) (t - s)).
Proof.
  intros Hs Hst Hd Hm Hv.
  unfold ConvertMemrefStore. cbn [getIntOrFloatBitWidth].
  rewrite rem_is_zero by lia. cbn [negb].
  rewrite wrapInt_small by (change (2 ^ 31) with 2147483648; lia).
  rewrite lowBitsLiteral_defined by lia. cbn [andThen].
  eexists. split; [reflexivity|]. split.
  - intros k Hk. unfold AtomicRMWOp.
    replace (k =? 0) with false by (symmetry; apply Z.eqb_neq; assumption).
    reflexivity.
  - unfold AtomicRMWOp, Arith.ShLIOp, Arith.ExtUIOp, Arith.ConstantOp.
    cbn [bitwidth bits Z.eqb].
    assert (P2d : 0 < 2 ^ (t - s)) by (apply Z.pow_pos_nonneg; lia).
    assert (Hdt : 2 ^ (t - s) <= 2 ^ t) by (apply Z.pow_le_mono_r; lia).
    assert (Hsd : 2 ^ s * 2 ^ (t - s) = 2 ^ t).
    { rewrite <- Z.pow_add_r by lia. f_equal. lia. }
    pose proof (lt_pow2 t ltac:(lia)).
    rewrite (wrap_small t (t - s)) by lia.
    rewrite (wrap_small t (2 ^ (t - s) - 1)) by lia.
    rewrite Z.ones_equiv. unfold Z.pred.
    replace (2 ^ (t - s) + -1) with (2 ^ (t - s) - 1) by lia.
    f_equal. apply wrap_small.
    rewrite Z.shiftl_mul_pow2 by lia. nia.
Qed.

(** X7.  The rewritten store of a rank-0 buffer (container wider than the
    element by less than 32 bits) puts the value into the top [s] bits of
    the single container and keeps its low [t - s] bits. *)
Theorem store_rank_0_writes_top_bits
        (s t : Z) (sgOld sgNew : SignednessSemantics)
        (v : Value) (mem : Memory) (i : Z) :
  0 < s -> s <= t -> t - s < 32 -> t mod s = 0 -> 0 <= bits v < 2 ^ s ->
  exists mem',
    ConvertMemrefStore (IntegerType s sgOld) (IntegerType t sgNew) O v mem i =
    Some (success mem') /\
    elementBits (mem' 0) (t - s) s = bits v /\
    elementBits (mem' 0) 0 (t - s) = elementBits (mem 0) 0 (t - s).
Proof.
  intros Hs Hst Hd Hm Hv.
  destruct (ConvertMemrefStore_rank_0 s t sgOld sgNew v mem i Hs Hst Hd Hm Hv)
    as (mem' & Hstore & _ & H0).
  exists mem'. split; [exact Hstore|]. rewrite H0. split.
  - assert (P2d : 0 < 2 ^ (t - s)) by (apply Z.pow_pos_nonneg; lia).
    rewrite <- (elementBits_of_small (bits v) s) at 2 by assumption.
    unfold elementBits at 2. rewrite Z.pow_0_r, Z.div_1_r.
    rewrite <- (Z.div_mul (bits v) (2 ^ (t - s))) at 2 by lia.
    rewrite <- Z.shiftl_mul_pow2 by lia.
    fold (elementBits (Z.shiftl (bits v) (t - s)) (t - s) s).
    apply elementBits_ext; [lia | lia |].
    intros j Hj. rewrite Z.lor_spec, Z.land_spec.
    rewrite Z.ones_spec_high by lia. rewrite andb_false_r. reflexivity.
  - apply elementBits_ext; [lia | lia |].
    intros j Hj. rewrite Z.lor_spec, Z.land_spec.
    rewrite Z.ones_spec_low by lia. rewrite andb_true_r.
    rewrite Z.shiftl_spec by lia.
    rewrite (Z.testbit_neg_r (bits v) (j - (t - s))) by lia. apply orb_false_r.
Qed.

Lemma store_rank_0_writes_top_bits_witness :
  exists mem',
    ConvertMemrefStore (IntegerType 4 Signless) (IntegerType 8 Signless) O
                       (mkValue 4 9) (fun _ => 171) 0 =
    Some (success mem') /\
    elementBits (mem' 0) (8 - 4) 4 = 9 /\
    elementBits (mem' 0) 0 (8 - 4) = elementBits 171 0 (8 - 4).
Proof.
  apply (store_rank_0_writes_top_bits 4 8 Signless Signless (mkValue 4 9)
           (fun _ => 171) 0); [lia | lia | lia | reflexivity | cbn; lia].
Defined.

(** The single container after the rewritten store of a rank-0 buffer, for
    any operand. *)
Lemma ConvertMemrefStore_rank_0_general
      (s t : Z) (sgOld sgNew : SignednessSemantics)
      (v : Value) (mem : Memory) (i : Z) :
  0 < s -> s <= t -> t - s < 32 -> t mod s = 0 ->
  exists mem',
    ConvertMemrefStore (IntegerType s sgOld) (IntegerType t sgNew) O v mem i =
    Some (success mem') /\
    mem' 0 = Z.lor (Z.land (mem 0) (Z.ones (t - s)))
                   (Z.shiftl (bits v) (t - s) mod 2 ^ t).
Proof.
  intros Hs Hst Hd Hm.
  unfold ConvertMemrefStore. cbn [getIntOrFloatBitWidth].
  rewrite rem_is_zero by lia. cbn [negb].
  rewrite wrapInt_small by (change (2 ^ 31) with 2147483648; lia).
  rewrite lowBitsLiteral_defined by lia. cbn [andThen].
  eexists. split; [reflexivity|].
  unfold AtomicRMWOp, Arith.ShLIOp, Arith.ExtUIOp, Arith.ConstantOp.
  cbn [bitwidth bits Z.eqb].
  assert (P2d : 0 < 2 ^ (t - s)) by (apply Z.pow_pos_nonneg; lia).
  assert (Hdt : 2 ^ (t - s) <= 2 ^ t) by (apply Z.pow_le_mono_r; lia).
  pose proof (lt_pow2 t ltac:(lia)).
  rewrite (wrap_small t (t - s)) by lia.
  rewrite (wrap_small t (2 ^ (t - s) - 1)) by lia.
  rewrite Z.ones_equiv. unfold Z.pred.
  replace (2 ^ (t - s) + -1) with (2 ^ (t - s) - 1) by lia.
  reflexivity.
Qed.

(** What the rewritten load of a rank-0 buffer returns: the single
    container under the mask, or at the width of the result type. *)
Lemma ConvertMemRefLoad_rank_0_general
      (s t : Z) (sgOld sgNew : SignednessSemantics) (resultTy : ElementType)
      (mem : Memory) (i : Z) :
  0 < s < 32 -> s <= t -> t mod s = 0 ->
  ConvertMemRefLoad (IntegerType s sgOld) (IntegerType t sgNew) resultTy O mem i =
  Some (success
          (if ElementType_eqb resultTy (IntegerType t sgNew)
           then mkValue t (mem 0 mod 2 ^ s)
           else mkValue (getIntOrFloatBitWidth resultTy)
                        (mem 0 mod 2 ^ getIntOrFloatBitWidth resultTy))).
Proof.
  intros Hs Hst Hm.
  unfold ConvertMemRefLoad. cbn [getIntOrFloatBitWidth].
  rewrite rem_is_zero by lia. cbn [negb].
  destruct (ElementType_eqb resultTy (IntegerType t sgNew)) eqn:E; [|reflexivity].
  rewrite lowBitsLiteral_defined by lia. cbn [andThen].
  unfold Arith.AndIOp, Arith.ConstantOp, LoadOp. cbn [bitwidth bits].
  do 3 f_equal.
  assert (P2s : 0 < 2 ^ s) by (apply Z.pow_pos_nonneg; lia).
  assert (H2 : 2 ^ s <= 2 ^ t) by (apply Z.pow_le_mono_r; lia).
  rewrite (wrap_small t (2 ^ s - 1)) by lia.
  replace (2 ^ s - 1) with (Z.ones s) by (rewrite Z.ones_equiv; lia).
  apply Z.land_ones. lia.
Qed.

Lemma mod_pow2_ext (x y w : Z) :
  0 <= w -> (forall j, 0 <= j < w -> Z.testbit x j = Z.testbit y j) ->
  x mod 2 ^ w = y mod 2 ^ w.
Proof.
  intros Hw H.
  pose proof (elementBits_ext x y 0 w ltac:(lia) Hw) as E.
  unfold elementBits in E. rewrite Z.pow_0_r, !Z.div_1_r in E.
  apply E. intros j Hj. apply H. lia.
Qed.

(** X8.  For a rank-0 buffer whose container is wider than the element, and
    a result type of the load that is the container type or no wider than
    the [t - s] low bits the store keeps: the rewritten store, whatever its
    operand, does not change what the rewritten load returns; the store
    writes the top [s] bits of the container, the load reads its low
    bits. *)
Theorem store_rank_0_then_load_rank_0
        (s t : Z) (sgOld sgNew : SignednessSemantics) (resultTy : ElementType)
        (v : Value) (mem : Memory) (i i' : Z) :
  0 < s < t -> t - s < 32 -> t mod s = 0 ->
  resultTy = IntegerType t sgNew \/ 0 <= getIntOrFloatBitWidth resultTy <= t - s ->
  exists mem',
    ConvertMemrefStore (IntegerType s sgOld) (IntegerType t sgNew) O v mem i =
    Some (success mem') /\
    ConvertMemRefLoad (IntegerType s sgOld) (IntegerType t sgNew) resultTy O mem' i' =
    ConvertMemRefLoad (IntegerType s sgOld) (IntegerType t sgNew) resultTy O mem i'.
Proof.
  intros Hs Hd Hm Hres.
  destruct (ConvertMemrefStore_rank_0_general s t sgOld sgNew v mem i)
    as (mem' & Hstore & H0); try lia; try assumption.
  assert (H2s : 2 * s <= t).
  { destruct (scale_facts s t ltac:(lia) ltac:(lia) Hm) as (_ & Hk & Hks).
    assert (t / s <> 1) by (intros E; rewrite E in Hks; lia). nia. }
  assert (Hlow : forall w, 0 <= w <= t - s -> mem' 0 mod 2 ^ w = mem 0 mod 2 ^ w).
  { intros w Hw. apply mod_pow2_ext; [lia|].
    intros j Hj. rewrite H0, Z.lor_spec, Z.land_spec.
    rewrite Z.ones_spec_low by lia. rewrite andb_true_r.
    rewrite Z.mod_pow2_bits_low by lia.
    rewrite Z.shiftl_spec by lia.
    rewrite (Z.testbit_neg_r (bits v) (j - (t - s))) by lia. apply orb_false_r. }
  exists mem'. split; [exact Hstore|].
  rewrite !ConvertMemRefLoad_rank_0_general by lia.
  destruct (ElementType_eqb resultTy (IntegerType t sgNew)) eqn:E.
  - rewrite Hlow by lia. reflexivity.
  - destruct Hres as [-> | Hw]; [rewrite ElementType_eqb_refl in E; discriminate|].
    rewrite Hlow by lia. reflexivity.
Qed.

Lemma store_rank_0_then_load_rank_0_witness :
  exists mem',
    ConvertMemrefStore (IntegerType 4 Signless) (IntegerType 8 Signless) O
                       (mkValue 4 9) (fun _ => 171) 0 =
    Some (success mem') /\
    ConvertMemRefLoad (IntegerType 4 Signless) (IntegerType 8 Signless)
                      (IntegerType 4 Signless) O mem' 0 =
    ConvertMemRefLoad (IntegerType 4 Signless) (IntegerType 8 Signless)
                      (IntegerType 4 Signless) O (fun _ => 171) 0.
Proof.
  apply (store_rank_0_then_load_rank_0 4 8 Signless Signless
           (IntegerType 4 Signless) (mkValue 4 9) (fun _ => 171) 0 0);
    [lia | lia | reflexivity | right; cbn; lia].
Defined.

(** ** More on the type conversion *)

(** X9.  Whatever the conversion returns is not narrow any more (a float
    element, or an integer element at least as wide as the load/store
    width) and lives in the memory space of the original. *)
Theorem converted_type_is_not_narrow (loadStoreWidth : Z) (ty ty' : MemRefType) :
  populateMemRefNarrowTypeEmulationConversions loadStoreWidth ty = Some ty' ->
  isNarrow loadStoreWidth (getElementType ty') = false /\
  getMemorySpace ty' = getMemorySpace ty.
Proof.
  intros Hconv.
  destruct (getElementType ty) as [w sg|w] eqn:Hel.
  - destruct (Z.leb_spec loadStoreWidth w) as [Hle|Hlt].
    + unfold populateMemRefNarrowTypeEmulationConversions, memRefTypeConversion in Hconv.
      rewrite Hel in Hconv.
      replace (loadStoreWidth <=? w) with true in Hconv
        by (symmetry; apply Z.leb_le; assumption).
      injection Hconv as <-. rewrite Hel. cbn [isNarrow].
      split; [apply Z.ltb_ge; assumption | reflexivity].
    + destruct (convert_narrow_inv loadStoreWidth w sg ty Hel Hlt ty' Hconv)
        as [layout ->].
      cbn [getElementType getMemorySpace isNarrow].
      split; [apply Z.ltb_irrefl | reflexivity].
  - unfold populateMemRefNarrowTypeEmulationConversions, memRefTypeConversion in Hconv.
    rewrite Hel in Hconv. injection Hconv as <-. rewrite Hel.
    split; reflexivity.
Qed.

Lemma converted_type_is_not_narrow_witness :
  isNarrow 8 (getElementType
                (mkMemRefType [5] (IntegerType 8 Unsigned) IdentityLayout 7)) = false /\
  getMemorySpace (mkMemRefType [5] (IntegerType 8 Unsigned) IdentityLayout 7) =
  getMemorySpace (mkMemRefType [10] (IntegerType 4 Unsigned) IdentityLayout 7).
Proof.
  apply (converted_type_is_not_narrow 8
           (mkMemRefType [10] (IntegerType 4 Unsigned) IdentityLayout 7)).
  reflexivity.
Defined.

(** X10.  The conversion is idempotent on every buffer type: a converted
    type converts to itself, and a type without conversion stays without. *)
Theorem convert_idempotent (loadStoreWidth : Z) (ty : MemRefType) :
  andThen (populateMemRefNarrowTypeEmulationConversions loadStoreWidth ty)
          (populateMemRefNarrowTypeEmulationConversions loadStoreWidth) =
  populateMemRefNarrowTypeEmulationConversions loadStoreWidth ty.
Proof.
  destruct (populateMemRefNarrowTypeEmulationConversions loadStoreWidth ty)
    as [ty'|] eqn:Hconv; [|reflexivity].
  cbn [andThen].
  destruct (converted_type_is_not_narrow loadStoreWidth ty ty' Hconv) as [Hn _].
  unfold populateMemRefNarrowTypeEmulationConversions, memRefTypeConversion.
  destruct (getElementType ty') as [w sg|w]; [|reflexivity].
  cbn [isNarrow] in Hn. apply Z.ltb_ge in Hn.
  replace (loadStoreWidth <=? w) with true by (symmetry; apply Z.leb_le; assumption).
  reflexivity.
Qed.

Lemma canonicalStrides_last (shape : list Z) :
  shape <> [] -> last (canonicalStrides shape) 0 = 1.
Proof.
  induction shape as [|d rest IH]; [contradiction|]. intros _.
  destruct rest as [|d' rest']; [reflexivity|].
  change (canonicalStrides (d :: d' :: rest'))
    with (runningSize (d' :: rest') :: canonicalStrides (d' :: rest')).
  change (canonicalStrides (d' :: rest'))
    with (runningSize rest' :: canonicalStrides rest') in *.
  cbn [last]. apply IH. discriminate.
Qed.

Lemma getLinearizedShape_static (ty : MemRefType) (srcBits dstBits : Z) :
  getShape ty <> [] ->
  existsb isDynamic (getShape ty) = false ->
  0 < srcBits <= dstBits ->
  0 <= numElements (getShape ty) ->
  numElements (getShape ty) + dstBits / srcBits - 1 < 2 ^ 63 ->
  getLinearizedShape ty srcBits dstBits =
  [(numElements (getShape ty) + dstBits / srcBits - 1) / (dstBits / srcBits)].
Proof.
  intros Hrank Hstat Hw Htot Hfit.
  unfold getLinearizedShape, getRank.
  destruct (getShape ty) as [|d rest] eqn:Hshape; [contradiction|].
  cbn [List.length].
  rewrite linearizedShapeLoop_static by (assumption || lia).
  rewrite Z.mul_1_l.
  assert (Hq : Z.quot dstBits srcBits = dstBits / srcBits)
    by (apply Z.quot_div_nonneg; lia).
  assert (Hscale : 0 < dstBits / srcBits) by (apply Z.div_str_pos; lia).
  rewrite Hq. unfold wrapInt64.
  rewrite (wrapSigned_add_l 64 _ (dstBits / srcBits)) by lia.
  replace (wrapSigned 64 (numElements (d :: rest) + dstBits / srcBits) - 1)
    with (wrapSigned 64 (numElements (d :: rest) + dstBits / srcBits) + -1) by lia.
  rewrite (wrapSigned_add_l 64 _ (-1)) by lia.
  rewrite wrapSigned_small by (change (64 - 1) with 63; lia).
  rewrite Z.quot_div_nonneg by lia. reflexivity.
Qed.

Lemma getLinearizedShape_dynamic (ty : MemRefType) (srcBits dstBits : Z) :
  existsb isDynamic (getShape ty) = true ->
  getLinearizedShape ty srcBits dstBits = [kDynamic].
Proof.
  intros Hdyn. unfold getLinearizedShape, getRank.
  destruct (getShape ty) as [|d rest] eqn:Hshape; [discriminate|].
  cbn [List.length]. rewrite linearizedShapeLoop_dynamic by assumption.
  reflexivity.
Qed.

(** X12.  A buffer type with a narrow integer element and the identity
    layout is converted, to a type with the identity layout and an integer
    element of the load/store width and the same signedness, when it has
    rank 0, or a dynamic dimension, or static sizes with a non-negative
    product that, plus the scale less one, stays within 64 bits. *)
Theorem convert_identity_layout
        (loadStoreWidth w : Z) (sg : SignednessSemantics) (ty : MemRefType) :
  getElementType ty = IntegerType w sg -> 0 < w < loadStoreWidth ->
  getLayout ty = IdentityLayout ->
  getShape ty = [] \/
  existsb isDynamic (getShape ty) = true \/
  (existsb isDynamic (getShape ty) = false /\
   0 <= numElements (getShape ty) /\
   numElements (getShape ty) + loadStoreWidth / w - 1 < 2 ^ 63) ->
  exists ty',
    populateMemRefNarrowTypeEmulationConversions loadStoreWidth ty = Some ty' /\
    getLayout ty' = IdentityLayout /\
    getElementType ty' = IntegerType loadStoreWidth sg.
Proof.
  intros Hel Hw Hlay Hshape.
  assert (Hso : getStridesAndOffset ty = Some (canonicalStrides (getShape ty), 0)).
  { unfold getStridesAndOffset. rewrite Hlay. reflexivity. }
  unfold populateMemRefNarrowTypeEmulationConversions.
  rewrite (memRefTypeConversion_narrow_strided loadStoreWidth w sg ty Hel
             ltac:(lia) _ 0 Hso).
  2:{ destruct (getShape ty) as [|d rest] eqn:E; [left; reflexivity|right].
      apply canonicalStrides_last. discriminate. }
  cbn [Z.eqb].
  assert (Hok : forallb (fun d => isDynamic d || (0 <=? d))
                        (getLinearizedShape ty w loadStoreWidth) = true).
  { assert (Hscale : 0 < loadStoreWidth / w) by (apply Z.div_str_pos; lia).
    assert (Hempty : getShape ty = [] ->
                     forallb (fun d => isDynamic d || (0 <=? d))
                             (getLinearizedShape ty w loadStoreWidth) = true).
    { intros Hnil. unfold getLinearizedShape, getRank. rewrite Hnil. reflexivity. }
    destruct Hshape as [Hnil|[Hdyn|(Hstat & Htot & Hfit)]].
    - apply Hempty. assumption.
    - rewrite getLinearizedShape_dynamic by assumption. reflexivity.
    - destruct (getShape ty) as [|d rest] eqn:E; [apply Hempty; reflexivity|].
      rewrite getLinearizedShape_static; rewrite ?E;
        try assumption; try lia; try discriminate.
      cbn [forallb]. rewrite andb_true_r. apply orb_true_iff. right.
      apply Z.leb_le. apply Z.div_pos; lia. }
  unfold verifyMemRefType. cbn [getShape getLayout]. rewrite Hok. cbn [andb].
  eexists. repeat split.
Qed.

Lemma convert_identity_layout_witness :
  exists ty',
    populateMemRefNarrowTypeEmulationConversions
      8 (mkMemRefType [3; kDynamic; 5] (IntegerType 1 Signless) IdentityLayout 0) =
    Some ty' /\
    getLayout ty' = IdentityLayout /\
    getElementType ty' = IntegerType 8 Signless.
Proof.
  apply (convert_identity_layout 8 1 Signless
           (mkMemRefType [3; kDynamic; 5] (IntegerType 1 Signless) IdentityLayout 0));
    [reflexivity | lia | reflexivity | right; left; reflexivity].
Defined.

Lemma getLinearizedShape_built (ty : MemRefType) (srcBits dstBits : Z) :
  getShape ty <> [] -> 0 < srcBits < dstBits ->
  existsb isDynamic (getShape ty) = true \/
  (existsb isDynamic (getShape ty) = false /\
   0 <= numElements (getShape ty) /\
   numElements (getShape ty) + dstBits / srcBits - 1 < 2 ^ 63) ->
  exists d,
    getLinearizedShape ty srcBits dstBits = [d] /\
    (isDynamic d || (0 <=? d)) = true.
Proof.
  intros Hrank Hw [Hdyn|(Hstat & Htot & Hfit)].
  - rewrite getLinearizedShape_dynamic by assumption.
    eexists. split; reflexivity.
  - assert (Hscale : 0 < dstBits / srcBits) by (apply Z.div_str_pos; lia).
    rewrite getLinearizedShape_static by (assumption || lia).
    eexists. split; [reflexivity|].
    apply orb_true_iff. right. apply Z.leb_le. apply Z.div_pos; lia.
Qed.

(** X20.  For a buffer type of rank >= 1 with a narrow integer element, a
    strided layout with innermost stride 1, and a shape with a dynamic
    dimension or with static sizes of non-negative product that, plus the
    scale less one, stays within 64 bits: a dynamic offset stays dynamic
    with the stride list [[1]]; a static non-zero offset whose product with
    the width stays within 64 bits is converted exactly when
    [(offset * width) mod loadStoreWidth = 0], to
    [(offset * width) / loadStoreWidth] with the stride list [[1]]; the
    offset 0 gives the identity layout.  The converted type has a single
    dimension. *)
Theorem converted_layout_offset
        (loadStoreWidth w : Z) (sg : SignednessSemantics) (ty : MemRefType)
        (strides : list Z) (offset : Z) :
  getElementType ty = IntegerType w sg -> 0 < w < loadStoreWidth ->
  getStridesAndOffset ty = Some (strides, offset) ->
  last strides 0 = 1 ->
  getShape ty <> [] ->
  existsb isDynamic (getShape ty) = true \/
  (existsb isDynamic (getShape ty) = false /\
   0 <= numElements (getShape ty) /\
   numElements (getShape ty) + loadStoreWidth / w - 1 < 2 ^ 63) ->
  (offset = kDynamic ->
   exists ty' d,
     populateMemRefNarrowTypeEmulationConversions loadStoreWidth ty = Some ty' /\
     getLayout ty' = StridedLayoutAttr kDynamic [1] /\ getShape ty' = [d])
  /\
  (offset <> 0 -> offset <> kDynamic -> - 2 ^ 63 <= offset * w < 2 ^ 63 ->
   ((offset * w) mod loadStoreWidth = 0 ->
    exists ty' d,
      populateMemRefNarrowTypeEmulationConversions loadStoreWidth ty = Some ty' /\
      getLayout ty' = StridedLayoutAttr (offset * w / loadStoreWidth) [1] /\
      getShape ty' = [d])
   /\
   ((offset * w) mod loadStoreWidth <> 0 ->
    populateMemRefNarrowTypeEmulationConversions loadStoreWidth ty = None))
  /\
  (offset = 0 ->
   exists ty' d,
     populateMemRefNarrowTypeEmulationConversions loadStoreWidth ty = Some ty' /\
     getLayout ty' = IdentityLayout /\ getShape ty' = [d]).
Proof.
  intros Hel Hw Hso Hunit Hrank Hshape.
  destruct (getLinearizedShape_built ty w loadStoreWidth Hrank Hw Hshape)
    as (d & Hd & Hok).
  unfold populateMemRefNarrowTypeEmulationConversions.
  rewrite (memRefTypeConversion_narrow_strided loadStoreWidth w sg ty Hel
             ltac:(lia) strides offset Hso (or_intror Hunit)).
  assert (Hbuilt : forall off,
            verifyMemRefType
              (mkMemRefType (getLinearizedShape ty w loadStoreWidth)
                            (IntegerType loadStoreWidth sg)
                            (StridedLayoutAttr off [1]) (getMemorySpace ty)) = true).
  { intros off. unfold verifyMemRefType, getRank. cbn [getShape getLayout].
    rewrite Hd. cbn [forallb List.length Nat.eqb]. rewrite Hok. reflexivity. }
  assert (Hbuilt0 :
            verifyMemRefType
              (mkMemRefType (getLinearizedShape ty w loadStoreWidth)
                            (IntegerType loadStoreWidth sg)
                            IdentityLayout (getMemorySpace ty)) = true).
  { unfold verifyMemRefType. cbn [getShape getLayout].
    rewrite Hd. cbn [forallb]. rewrite Hok. reflexivity. }
  split; [|split].
  - intros ->. cbn [Z.eqb kDynamic]. rewrite Hbuilt.
    do 2 eexists. split; [reflexivity|]. split; [reflexivity|exact Hd].
  - intros H0 Hdyn Hfit.
    replace (offset =? 0) with false by (symmetry; apply Z.eqb_neq; assumption).
    replace (offset =? kDynamic) with false by (symmetry; apply Z.eqb_neq; assumption).
    unfold wrapInt64. rewrite wrapSigned_small by (change (64 - 1) with 63; lia).
    split.
    + intros Hm.
      replace (Z.rem (offset * w) loadStoreWidth =? 0) with true.
      2:{ symmetry. apply Z.eqb_eq. apply rem_zero_iff_mod_zero; [lia|assumption]. }
      rewrite quot_exact_div by (lia || assumption). rewrite Hbuilt.
      do 2 eexists. split; [reflexivity|]. split; [reflexivity|exact Hd].
    + intros Hm.
      replace (Z.rem (offset * w) loadStoreWidth =? 0) with false; [reflexivity|].
      symmetry. apply Z.eqb_neq. intros Hr. apply Hm.
      apply rem_zero_iff_mod_zero; [lia|assumption].
  - intros ->. cbn [Z.eqb]. rewrite Hbuilt0.
    do 2 eexists. split; [reflexivity|]. split; [reflexivity|exact Hd].
Qed.

Lemma converted_layout_offset_witness :
  exists ty' d,
    populateMemRefNarrowTypeEmulationConversions
      8 (mkMemRefType [10] (IntegerType 4 Signless) (StridedLayoutAttr 6 [1]) 0) =
    Some ty' /\
    getLayout ty' = StridedLayoutAttr (6 * 4 / 8) [1] /\ getShape ty' = [d].
Proof.
  refine (proj1 (proj1 (proj2 (converted_layout_offset 8 4 Signless
                   (mkMemRefType [10] (IntegerType 4 Signless) (StridedLayoutAttr 6 [1]) 0)
                   [1] 6 _ _ _ _ _ _)) _ _ _) _);
    [reflexivity | lia | reflexivity | reflexivity | discriminate
     | right; cbn; lia | lia | discriminate | lia | reflexivity].
Defined.

(** X13.  For a static shape of rank >= 1 (non-negative sizes, the product
    plus the scale within 64 bits), every linear index inside the original
    buffer is scaled to a container index inside the linearized shape. *)
Theorem scaled_index_in_bounds (ty : MemRefType) (srcBits dstBits i : Z) :
  getShape ty <> [] ->
  existsb isDynamic (getShape ty) = false ->
  0 < srcBits <= dstBits ->
  numElements (getShape ty) + dstBits / srcBits - 1 < 2 ^ 63 ->
  0 <= i < numElements (getShape ty) ->
  exists r,
    getLinearizedShape ty srcBits dstBits = [r] /\
    0 <= getIndicesForLoadOrStore i srcBits dstBits < r.
Proof.
  intros Hrank Hstat Hw Hfit Hi.
  rewrite getLinearizedShape_static by (assumption || lia).
  eexists. split; [reflexivity|].
  unfold getIndicesForLoadOrStore.
  rewrite Z.quot_div_nonneg by lia.
  assert (Hscale : 0 < dstBits / srcBits) by (apply Z.div_str_pos; lia).
  set (k := dstBits / srcBits) in *. set (n := numElements (getShape ty)) in *.
  split; [apply Z.div_pos; lia|].
  apply Z.div_lt_upper_bound; [lia|].
  pose proof (Z.div_mod (n + k - 1) k ltac:(lia)).
  pose proof (Z.mod_pos_bound (n + k - 1) k Hscale). nia.
Qed.

Lemma scaled_index_in_bounds_witness :
  exists r,
    getLinearizedShape (mkMemRefType [3; 3] (IntegerType 4 Signless) IdentityLayout 0)
                       4 8 = [r] /\
    0 <= getIndicesForLoadOrStore 8 4 8 < r.
Proof.
  apply (scaled_index_in_bounds
           (mkMemRefType [3; 3] (IntegerType 4 Signless) IdentityLayout 0) 4 8 8);
    [discriminate | reflexivity | lia | cbn; lia | cbn; lia].
Defined.

(** ** The subview pattern *)

(** X14.  However the subview pattern fails, the rewriter state is the one
    it started from: nothing is created and nothing replaced. *)
Theorem subview_failure_leaves_state
        (convertType : MemRefType -> option MemRefType)
        (op : SubViewOp) (st st' : RewriterState) (d : Diagnostic) :
  ConvertMemRefSubview convertType op st = (failure d, st') -> st' = st.
Proof.
  unfold ConvertMemRefSubview, notifyMatchFailure.
  destruct (convertType (getType op)) as [newTy|].
  2:{ intros H. injection H as _ <-. reflexivity. }
  destruct (negb (Z.rem _ _ =? 0)); [intros H; injection H as _ <-; reflexivity|].
  destruct (negb (Nat.eqb _ 1)); [intros H; injection H as _ <-; reflexivity|].
  destruct (negb (getStaticStride op 0 =? 1));
    [intros H; injection H as _ <-; reflexivity|].
  destruct ((getStaticSize op 0 =? kDynamic) || (getStaticOffset op 0 =? kDynamic));
    [intros H; injection H as _ <-; reflexivity|].
  destruct (negb (Z.rem (getStaticOffset op 0) _ =? 0));
    [intros H; injection H as _ <-; reflexivity|].
  discriminate.
Qed.

Lemma subview_failure_leaves_state_witness :
  mkRewriterState [] [] = mkRewriterState [] [].
Proof.
  symmetry.
  apply (subview_failure_leaves_state
           (convertType 8)
           (mkSubViewOp (mkMemRefType [5] (IntegerType 8 Signless)
                                      (StridedLayoutAttr 0 [2]) 0)
                        [0] [5] [2])
           (mkRewriterState [] []) (mkRewriterState [] [])
           strideDiagnostic).
  reflexivity.
Defined.

(** X15.  When the subview pattern succeeds, the result type converts, the
    result has rank 1, the stride is 1, size and offset are static, exactly
    one subview is created and the original is replaced by it; the new
    subview keeps the strides, and its offset times the number of elements
    per container is the original offset. *)
Theorem subview_success
        (convertType : MemRefType -> option MemRefType)
        (op : SubViewOp) (st st' : RewriterState) :
  ConvertMemRefSubview convertType op st = (success tt, st') ->
  exists newTy offset' size',
    convertType (getType op) = Some newTy /\
    st' = mkRewriterState
            (createdOps st ++ [mkSubViewOp newTy [offset'] [size'] (getStaticStrides op)])
            (replacedOps st ++ [op]) /\
    getRank (getType op) = 1%nat /\
    getStaticStride op 0 = 1 /\
    getStaticSize op 0 <> kDynamic /\
    getStaticOffset op 0 <> kDynamic /\
    offset' * Z.quot (getIntOrFloatBitWidth (getElementType newTy))
                     (getIntOrFloatBitWidth (getElementType (getType op)))
    = getStaticOffset op 0.
Proof.
  unfold ConvertMemRefSubview, notifyMatchFailure.
  destruct (convertType (getType op)) as [newTy|]; [|discriminate].
  destruct (negb (Z.rem _ _ =? 0)); [discriminate|].
  destruct (Nat.eqb_spec (getRank (getType op)) 1) as [Hrank|]; [|discriminate].
  destruct (Z.eqb_spec (getStaticStride op 0) 1) as [Hstride|]; [|discriminate].
  cbn [negb].
  destruct (Z.eqb_spec (getStaticSize op 0) kDynamic) as [|Hsize]; [discriminate|].
  destruct (Z.eqb_spec (getStaticOffset op 0) kDynamic) as [|Hoff]; [discriminate|].
  cbn [orb].
  destruct (Z.eqb_spec (Z.rem (getStaticOffset op 0)
                              (Z.quot (getIntOrFloatBitWidth (getElementType newTy))
                                      (getIntOrFloatBitWidth
                                         (getElementType (getType op))))) 0)
    as [Hrem|]; [|discriminate].
  cbn [negb]. intros H. injection H as <-.
  do 3 eexists. split; [reflexivity|]. split; [reflexivity|].
  repeat (split; [assumption|]).
  match goal with |- ?q * ?e = ?o => pose proof (Z.quot_rem' o e) end. lia.
Qed.

Lemma subview_success_witness :
  exists newTy offset' size',
    convertType
      8 (mkMemRefType [5] (IntegerType 4 Signless) (StridedLayoutAttr 6 [1]) 0) =
    Some newTy /\
    mkRewriterState
      [mkSubViewOp (mkMemRefType [3] (IntegerType 8 Signless) (StridedLayoutAttr 3 [1]) 0)
                   [3] [3] [1]]
      [mkSubViewOp (mkMemRefType [5] (IntegerType 4 Signless) (StridedLayoutAttr 6 [1]) 0)
                   [6] [5] [1]] =
    mkRewriterState
      ([] ++ [mkSubViewOp newTy [offset'] [size'] [1]])
      ([] ++ [mkSubViewOp (mkMemRefType [5] (IntegerType 4 Signless)
                                        (StridedLayoutAttr 6 [1]) 0)
                          [6] [5] [1]]) /\
    getRank (mkMemRefType [5] (IntegerType 4 Signless) (StridedLayoutAttr 6 [1]) 0) = 1%nat /\
    1 = 1 /\ 5 <> kDynamic /\ 6 <> kDynamic /\
    offset' * Z.quot (getIntOrFloatBitWidth (getElementType newTy)) 4 = 6.
Proof.
  apply (subview_success
           (convertType 8)
           (mkSubViewOp (mkMemRefType [5] (IntegerType 4 Signless)
                                      (StridedLayoutAttr 6 [1]) 0)
                        [6] [5] [1])
           (mkRewriterState [] [])).
  reflexivity.
Defined.

Lemma ceilDiv_bounds (lhs rhs : Z) :
  0 <= lhs -> 0 < rhs ->
  lhs <= ceilDiv lhs rhs * rhs < lhs + rhs.
Proof.
  intros Hl Hr. unfold ceilDiv.
  replace (0 <? rhs) with true by (symmetry; apply Z.ltb_lt; assumption).
  destruct (Z.eqb_spec lhs 0) as [-> | Hne]; cbn [negb andb].
  - cbn. lia.
  - replace (0 <? lhs) with true by (symmetry; apply Z.ltb_lt; lia).
    cbn [Bool.eqb].
    rewrite Z.quot_div_nonneg by lia.
    pose proof (Z.div_mod (lhs + -1) rhs ltac:(lia)).
    pose proof (Z.mod_pos_bound (lhs + -1) rhs Hr). nia.
Qed.

(** X16.  When the subview pattern succeeds on a subview of non-negative
    size, with the converted element at least as wide as the original, the
    new size is the least number of containers that hold the original
    elements: [size <= size' * scale < size + scale]. *)
Theorem subview_success_size
        (convertType : MemRefType -> option MemRefType)
        (op : SubViewOp) (st st' : RewriterState) :
  ConvertMemRefSubview convertType op st = (success tt, st') ->
  0 <= getStaticSize op 0 ->
  (forall newTy,
      convertType (getType op) = Some newTy ->
      0 < getIntOrFloatBitWidth (getElementType (getType op))
      <= getIntOrFloatBitWidth (getElementType newTy)) ->
  exists newOp size',
    createdOps st' = createdOps st ++ [newOp] /\
    getStaticSizes newOp = [size'] /\
    forall newTy,
      convertType (getType op) = Some newTy ->
      let scale := getIntOrFloatBitWidth (getElementType newTy)
                   / getIntOrFloatBitWidth (getElementType (getType op)) in
      getStaticSize op 0 <= size' * scale < getStaticSize op 0 + scale.
Proof.
  unfold ConvertMemRefSubview, notifyMatchFailure.
  destruct (convertType (getType op)) as [newTy|]; [|discriminate].
  destruct (negb (Z.rem _ _ =? 0)); [discriminate|].
  destruct (negb (Nat.eqb _ 1)); [discriminate|].
  destruct (negb (getStaticStride op 0 =? 1)); [discriminate|].
  destruct ((getStaticSize op 0 =? kDynamic) || (getStaticOffset op 0 =? kDynamic));
    [discriminate|].
  destruct (negb (Z.rem (getStaticOffset op 0) _ =? 0)); [discriminate|].
  intros H Hsize Hwidths. injection H as <-.
  do 2 eexists. split; [reflexivity|]. split; [reflexivity|].
  intros newTy' Hnew. injection Hnew as <-. cbv zeta.
  specialize (Hwidths newTy eq_refl).
  rewrite Z.quot_div_nonneg by lia.
  apply ceilDiv_bounds; [assumption|]. apply Z.div_str_pos. lia.
Qed.

Lemma subview_success_size_witness :
  exists newOp size',
    createdOps
      (mkRewriterState
         [mkSubViewOp (mkMemRefType [3] (IntegerType 8 Signless) (StridedLayoutAttr 3 [1]) 0)
                      [3] [3] [1]]
         [mkSubViewOp (mkMemRefType [5] (IntegerType 4 Signless) (StridedLayoutAttr 6 [1]) 0)
                      [6] [5] [1]]) = [] ++ [newOp] /\
    getStaticSizes newOp = [size'] /\
    forall newTy,
      convertType
        8 (mkMemRefType [5] (IntegerType 4 Signless) (StridedLayoutAttr 6 [1]) 0) =
      Some newTy ->
      5 <= size' * (getIntOrFloatBitWidth (getElementType newTy) / 4)
      < 5 + getIntOrFloatBitWidth (getElementType newTy) / 4.
Proof.
  apply (subview_success_size
           (convertType 8)
           (mkSubViewOp (mkMemRefType [5] (IntegerType 4 Signless)
                                      (StridedLayoutAttr 6 [1]) 0)
                        [6] [5] [1])
           (mkRewriterState [] [])).
  - reflexivity.
  - cbn. lia.
  - intros newTy H. injection H as <-. cbn. lia.
Defined.

(** ** The reinterpret-cast pattern *)

(** X17.  The reinterpret-cast pattern succeeds only on a rank-0 result
    with a static offset; the new cast then has the converted type and the
    converted source, no sizes, the original strides, and a single offset
    which, times the number of elements per container, is the original
    offset. *)
Theorem reinterpret_cast_success
        (convertType : MemRefType -> option MemRefType)
        (op newOp : ReinterpretCastOp.Op) (adaptorSource : Z) :
  ConvertMemRefReinterpretCast convertType op adaptorSource = success newOp ->
  convertType (ReinterpretCastOp.getType op) = Some (ReinterpretCastOp.getType newOp) /\
  getRank (ReinterpretCastOp.getType op) = 0%nat /\
  ReinterpretCastOp.getStaticOffset op 0 <> kDynamic /\
  ReinterpretCastOp.getSource newOp = adaptorSource /\
  ReinterpretCastOp.getStaticSizes newOp = [] /\
  ReinterpretCastOp.getStaticStrides newOp = ReinterpretCastOp.getStaticStrides op /\
  exists offset',
    ReinterpretCastOp.getStaticOffsets newOp = [offset'] /\
    offset' * Z.quot (getIntOrFloatBitWidth
                        (getElementType (ReinterpretCastOp.getType newOp)))
                     (getIntOrFloatBitWidth
                        (getElementType (ReinterpretCastOp.getType op)))
    = ReinterpretCastOp.getStaticOffset op 0.
Proof.
  unfold ConvertMemRefReinterpretCast.
  destruct (convertType (ReinterpretCastOp.getType op)) as [newTy|]; [|discriminate].
  destruct (negb (Z.rem _ _ =? 0)); [discriminate|].
  destruct (Nat.eqb_spec (getRank (ReinterpretCastOp.getType op)) 0) as [Hrank|];
    [|discriminate].
  cbn [negb].
  destruct (Z.eqb_spec (ReinterpretCastOp.getStaticOffset op 0) kDynamic) as [|Hoff];
    [discriminate|].
  destruct (Z.eqb_spec
              (Z.rem (ReinterpretCastOp.getStaticOffset op 0)
                     (Z.quot (getIntOrFloatBitWidth (getElementType newTy))
                             (getIntOrFloatBitWidth
                                (getElementType (ReinterpretCastOp.getType op))))) 0)
    as [Hrem|]; [|discriminate].
  cbn [negb]. intros H. injection H as <-.
  cbn [ReinterpretCastOp.getType ReinterpretCastOp.getSource
       ReinterpretCastOp.getStaticSizes ReinterpretCastOp.getStaticStrides
       ReinterpretCastOp.getStaticOffsets].
  repeat (split; [reflexivity || assumption|]).
  eexists. split; [reflexivity|].
  match goal with |- ?q * ?e = ?o => pose proof (Z.quot_rem' o e) end. lia.
Qed.

Lemma reinterpret_cast_success_witness :
  getRank (mkMemRefType [] (IntegerType 4 Signless) (StridedLayoutAttr 0 []) 0) = 0%nat.
Proof.
  refine (proj1 (proj2 (reinterpret_cast_success
                   (convertType 8)
                   (ReinterpretCastOp.mk
                      (mkMemRefType [] (IntegerType 4 Signless) (StridedLayoutAttr 0 []) 0)
                      1 [0] [] [])
                   (ReinterpretCastOp.mk
                      (mkMemRefType [] (IntegerType 8 Signless) IdentityLayout 0)
                      2 [0] [] [])
                   2 _))).
  reflexivity.
Defined.
